(** * ViniPlay: stream session manager and DVR scheduling engine

    A shallow embedding of the process-orchestration core of [server.js]:
    the command-template resolver, the live stream session table with its
    inactivity janitor, and the DVR scheduler with its timers, recording
    supervision and startup recovery.

    Conventions of the embedding.
    - Instants are epoch milliseconds in [Z] (what [new Date(x).getTime()]
      and [Date.now()] return); ISO strings stored in the database are
      identified with the instant they denote.
    - JavaScript strings are [string]s of 8-bit code units.
    - A JavaScript [Map] whose iteration order is observed is an insertion
      ordered association list; the maps keyed by job id are [gmap]s.
    - Mutable objects shared between the table and request closures live in
      an explicit heap (a list addressed by index).
    - Every handler is a state transformer; what the event loop interleaves
      (database callbacks, timers, process events) is a separate event.

    Scope of the model.
    - SQL statements succeed and take effect in the order they are issued;
      only the [stream_history] INSERT, whose callback registers a session,
      is kept as a separate event.
    - [spawn] returns a child with the next unused pid; whether a later
      [kill] throws is a property of the child set by the environment.
    - [fs.stat] on the recording file is an input of the exit handler.
    - Authentication, logging to the console and the HTTP plumbing around
      the handlers are left out; warnings that a statement is about are
      kept in the effect log. *)

From Stdlib Require Import ZArith Ascii String List Bool Lia.
From stdpp Require Import base option list strings pretty gmap.

Local Open Scope string_scope.
Local Open Scope list_scope.
Local Open Scope Z_scope.

(* ================================================================== *)
(** ** JavaScript string primitives used by the server *)

Module Js.

Definition dquote : ascii := "034"%char.
Definition dollar : ascii := "$"%char.
Definition lbrace : ascii := "{"%char.

(** [\s] of a regular expression, and the set [String.prototype.trim]
    removes, restricted to code units below 256. *)
Definition isWhiteSpace (c : ascii) : bool :=
  match N_of_ascii c with
  | 9%N | 10%N | 11%N | 12%N | 13%N | 32%N | 160%N => true
  | _ => false
  end.

Definition isQuote (c : ascii) : bool := Ascii.eqb c dquote.

(** [s.startsWith(p)] *)
Fixpoint startsWith (p s : string) : bool :=
  match p with
  | EmptyString => true
  | String a p' =>
      match s with
      | EmptyString => false
      | String b s' => Ascii.eqb a b && startsWith p' s'
      end
  end.

(** [s.includes(needle)] *)
Fixpoint includes (needle s : string) : bool :=
  startsWith needle s ||
  match s with
  | EmptyString => false
  | String _ rest => includes needle rest
  end.

Fixpoint dropChars (n : nat) (s : string) : string :=
  match n, s with
  | O, _ => s
  | S _, EmptyString => EmptyString
  | S k, String _ rest => dropChars k rest
  end.

(** [s.slice(-n)]: the last [n] code units, the whole string when it is
    shorter. *)
Definition sliceLast (n : nat) (s : string) : string :=
  dropChars (String.length s - n) s.

Fixpoint trimStart (s : string) : string :=
  match s with
  | String c rest => if isWhiteSpace c then trimStart rest else s
  | EmptyString => EmptyString
  end.

Fixpoint trimEnd (s : string) : string :=
  match s with
  | EmptyString => EmptyString
  | String c rest =>
      match trimEnd rest with
      | EmptyString => if isWhiteSpace c then EmptyString else String c EmptyString
      | t => String c t
      end
  end.

(** [s.trim()] *)
Definition trim (s : string) : string := trimEnd (trimStart s).

(** Template-literal rendering of a number. *)
Definition showZ (z : Z) : string := pretty z.

(** Template-literal rendering of a value that may be [undefined]. *)
Definition showOpt (o : option string) : string :=
  match o with
  | Some s => s
  | None => "undefined"
  end.

(** [Math.round(ms / 1000)]: nearest integer, halves towards +infinity. *)
Definition roundSeconds (ms : Z) : Z := (ms + 500) / 1000.

(** [RegExp.prototype[Symbol.replace]] expands the replacement string with
    GetSubstitution.  The patterns of the server have no capture group, so
    only [$$], [$&], [$`] and [$'] are special; any other [$] is literal. *)
Fixpoint getSubstitution (matched before after repl : string) : string :=
  match repl with
  | EmptyString => EmptyString
  | String c r =>
      if Ascii.eqb c dollar then
        match r with
        | String d r' =>
            if Ascii.eqb d dollar then String dollar (getSubstitution matched before after r')
            else if Ascii.eqb d "&"%char then matched +:+ getSubstitution matched before after r'
            else if Ascii.eqb d "`"%char then before +:+ getSubstitution matched before after r'
            else if Ascii.eqb d "'"%char then after +:+ getSubstitution matched before after r'
            else String c (getSubstitution matched before after r)
        | EmptyString => String c EmptyString
        end
      else String c (getSubstitution matched before after r)
  end.

(** The alternatives of a pattern [/p1|p2|.../] are literal strings, tried
    in order at the current position. *)
Definition firstMatch (alts : list string) (s : string) : option string :=
  List.find (fun p => startsWith p s) alts.

(** [s.replace(/p1|p2|.../g, repl)], scanning left to right.  [before] is
    the part of the subject already passed, [skip] counts the code units
    of the current match still to be consumed. *)
Fixpoint replaceFrom (alts : list string) (repl before : string) (skip : nat)
    (s : string) : string :=
  match s with
  | EmptyString => EmptyString
  | String c rest =>
      match skip with
      | S k => replaceFrom alts repl (before +:+ String c EmptyString) k rest
      | O =>
          match firstMatch alts s with
          | Some m =>
              getSubstitution m before (dropChars (String.length m) s) repl
              +:+ replaceFrom alts repl (before +:+ String c EmptyString)
                    (String.length m - 1) rest
          | None =>
              String c (replaceFrom alts repl (before +:+ String c EmptyString) O rest)
          end
      end
  end.

Definition replaceAll (alts : list string) (repl s : string) : string :=
  replaceFrom alts repl EmptyString O s.

End Js.

(* ================================================================== *)
(** ** ProfileResolver: command templates and argument vectors *)

Module Template.
Import Js.

Fixpoint hasQuote (s : string) : bool :=
  match s with
  | EmptyString => false
  | String c rest => isQuote c || hasQuote rest
  end.

Definition flush (cur : string) : list string :=
  match cur with
  | EmptyString => []
  | _ => [cur]
  end.

(** [commandTemplate.match(/(?:[^\s"]+|"[^"]*")+/g) || []].

    The pattern ends with the repeated group, so the first successful path
    of the backtracking matcher is the greedy one: a match takes maximal
    runs of ordinary code units and complete quoted sections until neither
    alternative applies.  A quote that is never closed matches neither
    alternative: it ends the current match and is stepped over.
    [cur] is the match under construction (empty when none is open) and
    [inQuote] tells whether the scan is inside a quoted section whose
    closing quote is known to exist. *)
Fixpoint matchArgsFrom (cur : string) (inQuote : bool) (s : string) : list string :=
  match s with
  | EmptyString => flush cur
  | String c rest =>
      if inQuote then
        matchArgsFrom (cur +:+ String c EmptyString) (negb (isQuote c)) rest
      else if isQuote c then
        if hasQuote rest
        then matchArgsFrom (cur +:+ String c EmptyString) true rest
        else flush cur ++ matchArgsFrom EmptyString false rest
      else if isWhiteSpace c then
        flush cur ++ matchArgsFrom EmptyString false rest
      else
        matchArgsFrom (cur +:+ String c EmptyString) false rest
  end.

Definition matchArgs (s : string) : list string :=
  matchArgsFrom EmptyString false s.

Definition stripLeadingQuote (s : string) : string :=
  match s with
  | String c rest => if isQuote c then rest else s
  | EmptyString => EmptyString
  end.

Fixpoint stripTrailingQuote (s : string) : string :=
  match s with
  | EmptyString => EmptyString
  | String c EmptyString => if isQuote c then EmptyString else s
  | String c rest => String c (stripTrailingQuote rest)
  end.

(** [arg.replace(/^"|"$/g, '')] *)
Definition stripQuotes (arg : string) : string :=
  stripTrailingQuote (stripLeadingQuote arg).

(** [(commandTemplate.match(...) || []).map(arg => arg.replace(/^"|"$/g, ''))] *)
Definition splitArgs (commandTemplate : string) : list string :=
  List.map stripQuotes (matchArgs commandTemplate).

(** Live path ([app.get('/stream')]). *)
Definition liveCommandTemplate (playerLogLevel command streamUrl userAgentValue : string)
    : string :=
  ("-v level+" +:+ playerLogLevel +:+ " ") +:+
  replaceAll ["{userAgent}"; "{clientUserAgent}"] userAgentValue
    (replaceAll ["{streamUrl}"] streamUrl command).

(** Recording path ([startRecording]). *)
Definition dvrCommandTemplate (dvrLogLevel command streamUrl userAgentValue fullFilePath : string)
    : string :=
  ("-v level+" +:+ dvrLogLevel +:+ " ") +:+
  replaceAll ["{filePath}"] fullFilePath
    (replaceAll ["{userAgent}"] userAgentValue
       (replaceAll ["{streamUrl}"] streamUrl command)).

End Template.

(* ================================================================== *)
(** ** Settings and the channel directory (external collaborators) *)

Module Settings.

Record UserAgent := mkUserAgent {
  ua_id : string;
  ua_name : string;
  ua_value : string
}.

Record Profile := mkProfile {
  p_id : string;
  p_name : string;
  command : string
}.

(** [settings.dvr].  A field that may be missing, [null] or [NaN] is an
    [option]. *)
Record DvrSettings := mkDvrSettings {
  preBufferMinutes : option Z;
  postBufferMinutes : option Z;
  maxConcurrentRecordings : option Z;
  activeRecordingProfileId : option string;
  recordingProfiles : list Profile
}.

Record Settings := mkSettings {
  userAgents : list UserAgent;
  streamProfiles : list Profile;
  castProfiles : list Profile;
  dvr : DvrSettings;
  activeUserAgentId : option string;
  playerLogLevel : string;
  dvrLogLevel : string
}.

(** An entry of [parseM3U(...)]. *)
Record Channel := mkChannel {
  ch_id : string;
  ch_url : string;
  ch_name : string;
  ch_displayName : option string;
  ch_logo : option string
}.

(** [x || d] on a number that may be missing: [undefined], [null], [NaN]
    and [0] are falsy. *)
Definition orElse (x : option Z) (d : Z) : Z :=
  match x with
  | Some n => if n =? 0 then d else n
  | None => d
  end.

(** [list.find(p => p.id === wanted)] where [wanted] may be [undefined]. *)
Definition findProfile (wanted : option string) (ps : list Profile) : option Profile :=
  match wanted with
  | Some w => List.find (fun p => String.eqb (p_id p) w) ps
  | None => None
  end.

Definition findUserAgent (wanted : option string) (uas : list UserAgent) : option UserAgent :=
  match wanted with
  | Some w => List.find (fun ua => String.eqb (ua_id ua) w) uas
  | None => None
  end.

End Settings.

(* ================================================================== *)
(** ** A JavaScript [Map] with string keys, in insertion order *)

Module JsMap.
Section JsMap.
Context {V : Type}.

Definition t := list (string * V).

Fixpoint get (k : string) (m : t) : option V :=
  match m with
  | [] => None
  | (k', v) :: rest => if String.eqb k' k then Some v else get k rest
  end.

Definition has (k : string) (m : t) : bool :=
  match get k m with
  | Some _ => true
  | None => false
  end.

(** [m.set(k, v)]: an existing key keeps its position. *)
Fixpoint set (k : string) (v : V) (m : t) : t :=
  match m with
  | [] => [(k, v)]
  | (k', v') :: rest =>
      if String.eqb k' k then (k, v) :: rest else (k', v') :: set k v rest
  end.

Definition delete (k : string) (m : t) : t :=
  List.filter (fun kv => negb (String.eqb (fst kv) k)) m.

Definition keys (m : t) : list string := List.map fst m.

End JsMap.
End JsMap.

(* ================================================================== *)
(** ** DvrScheduler *)

Module Dvr.
Import Js Template Settings.

Inductive JobStatus := scheduled | recording | completed | error | cancelled.

Definition statusEqb (a b : JobStatus) : bool :=
  match a, b with
  | scheduled, scheduled | recording, recording | completed, completed
  | error, error | cancelled, cancelled => true
  | _, _ => false
  end.

(** A row of [dvr_jobs]; also the job object captured by timers and by the
    handlers of a recording process. *)
Record DvrJob := mkJob {
  id : Z;
  user_id : Z;
  channelId : string;
  channelName : string;
  programTitle : string;
  startTime : Z;
  endTime : Z;
  status : JobStatus;
  ffmpeg_pid : option Z;
  filePath : option string;
  profileId : option string;
  userAgentId : option string;
  jobPreBufferMinutes : Z;
  jobPostBufferMinutes : Z;
  errorMessage : option string
}.

(** A row of [dvr_recordings]. *)
Record DvrRecording := mkRecording {
  rec_job_id : Z;
  rec_user_id : Z;
  rec_channelName : string;
  rec_programTitle : string;
  rec_startTime : Z;
  durationSeconds : Z;
  fileSizeBytes : Z;
  rec_filePath : string
}.

(** The [SET] clauses of the [UPDATE dvr_jobs] statements. *)
Definition setError (msg : string) (j : DvrJob) : DvrJob :=
  mkJob (id j) (user_id j) (channelId j) (channelName j) (programTitle j)
    (startTime j) (endTime j) error (ffmpeg_pid j) (filePath j) (profileId j)
    (userAgentId j) (jobPreBufferMinutes j) (jobPostBufferMinutes j) (Some msg).

Definition setErrorNoPid (msg : string) (j : DvrJob) : DvrJob :=
  mkJob (id j) (user_id j) (channelId j) (channelName j) (programTitle j)
    (startTime j) (endTime j) error None (filePath j) (profileId j)
    (userAgentId j) (jobPreBufferMinutes j) (jobPostBufferMinutes j) (Some msg).

Definition setRecording (pid : Z) (path : string) (j : DvrJob) : DvrJob :=
  mkJob (id j) (user_id j) (channelId j) (channelName j) (programTitle j)
    (startTime j) (endTime j) recording (Some pid) (Some path) (profileId j)
    (userAgentId j) (jobPreBufferMinutes j) (jobPostBufferMinutes j) (errorMessage j).

Definition setCompletedNoPid (j : DvrJob) : DvrJob :=
  mkJob (id j) (user_id j) (channelId j) (channelName j) (programTitle j)
    (startTime j) (endTime j) completed None (filePath j) (profileId j)
    (userAgentId j) (jobPreBufferMinutes j) (jobPostBufferMinutes j) (errorMessage j).

Definition setStatus (s : JobStatus) (j : DvrJob) : DvrJob :=
  mkJob (id j) (user_id j) (channelId j) (channelName j) (programTitle j)
    (startTime j) (endTime j) s (ffmpeg_pid j) (filePath j) (profileId j)
    (userAgentId j) (jobPreBufferMinutes j) (jobPostBufferMinutes j) (errorMessage j).

Definition setWindow (s e : Z) (j : DvrJob) : DvrJob :=
  mkJob (id j) (user_id j) (channelId j) (channelName j) (programTitle j)
    s e (status j) (ffmpeg_pid j) (filePath j) (profileId j)
    (userAgentId j) (jobPreBufferMinutes j) (jobPostBufferMinutes j) (errorMessage j).

Definition setId (i : Z) (j : DvrJob) : DvrJob :=
  mkJob i (user_id j) (channelId j) (channelName j) (programTitle j)
    (startTime j) (endTime j) (status j) (ffmpeg_pid j) (filePath j) (profileId j)
    (userAgentId j) (jobPreBufferMinutes j) (jobPostBufferMinutes j) (errorMessage j).

(** [UPDATE dvr_jobs SET ... WHERE cond] and the [this.changes] it reports. *)
Definition updateWhere (cond : DvrJob -> bool) (f : DvrJob -> DvrJob)
    (rows : list DvrJob) : list DvrJob :=
  List.map (fun r => if cond r then f r else r) rows.

Definition changes (cond : DvrJob -> bool) (rows : list DvrJob) : nat :=
  List.length (List.filter cond rows).

Definition hasId (i : Z) (j : DvrJob) : bool := id j =? i.

(** [SELECT * FROM dvr_jobs WHERE id = ?] through [db.get]: the first row. *)
Definition getJob (i : Z) (rows : list DvrJob) : option DvrJob :=
  List.find (hasId i) rows.

Inductive Signal := SIGINT | SIGKILL.

(** What the scheduler does to the outside world, in order. *)
Inductive Effect :=
| Spawn (pid : Z) (args : list string)
| Kill (pid : Z) (sig : Signal)
| Chmod (path : string)
| Unlink (path : string)
| Warn (msg : string).

(** A [node-schedule] job created by [schedule.scheduleJob(date, fn)]. *)
Inductive TimerAction :=
| StartRecordingOf (job : DvrJob)
| StopRecordingOf (jobId : Z).

Inductive TimerState := Pending | Fired | Canceled.

Record Timer := mkTimer {
  fireAt : Z;
  action : TimerAction;
  timerState : TimerState
}.

(** The closure of one [startRecording] call after [spawn]. *)
Record RecProc := mkRecProc {
  rp_pid : Z;
  rp_job : DvrJob;
  fullFilePath : string;
  ffmpegErrorOutput : string;
  closed : bool
}.

Record State := mkState {
  settings : Settings;
  channels : list Channel;
  dvr_jobs : list DvrJob;
  dvr_seq : Z;
  dvr_recordings : list DvrRecording;
  timers : list Timer;
  activeDvrJobs : gmap Z nat;
  runningFFmpegProcesses : gmap Z Z;
  procs : list RecProc;
  os_running : gset Z;
  os_next_pid : Z;
  effects : list Effect
}.

Definition withJobs (f : list DvrJob -> list DvrJob) (st : State) : State :=
  mkState (settings st) (channels st) (f (dvr_jobs st)) (dvr_seq st)
    (dvr_recordings st) (timers st) (activeDvrJobs st)
    (runningFFmpegProcesses st) (procs st) (os_running st) (os_next_pid st)
    (effects st).

Definition withSeq (n : Z) (st : State) : State :=
  mkState (settings st) (channels st) (dvr_jobs st) n
    (dvr_recordings st) (timers st) (activeDvrJobs st)
    (runningFFmpegProcesses st) (procs st) (os_running st) (os_next_pid st)
    (effects st).

Definition withRecordings (f : list DvrRecording -> list DvrRecording) (st : State) : State :=
  mkState (settings st) (channels st) (dvr_jobs st) (dvr_seq st)
    (f (dvr_recordings st)) (timers st) (activeDvrJobs st)
    (runningFFmpegProcesses st) (procs st) (os_running st) (os_next_pid st)
    (effects st).

Definition withTimers (f : list Timer -> list Timer) (st : State) : State :=
  mkState (settings st) (channels st) (dvr_jobs st) (dvr_seq st)
    (dvr_recordings st) (f (timers st)) (activeDvrJobs st)
    (runningFFmpegProcesses st) (procs st) (os_running st) (os_next_pid st)
    (effects st).

Definition withActive (f : gmap Z nat -> gmap Z nat) (st : State) : State :=
  mkState (settings st) (channels st) (dvr_jobs st) (dvr_seq st)
    (dvr_recordings st) (timers st) (f (activeDvrJobs st))
    (runningFFmpegProcesses st) (procs st) (os_running st) (os_next_pid st)
    (effects st).

Definition withRunning (f : gmap Z Z -> gmap Z Z) (st : State) : State :=
  mkState (settings st) (channels st) (dvr_jobs st) (dvr_seq st)
    (dvr_recordings st) (timers st) (activeDvrJobs st)
    (f (runningFFmpegProcesses st)) (procs st) (os_running st) (os_next_pid st)
    (effects st).

Definition withProcs (f : list RecProc -> list RecProc) (st : State) : State :=
  mkState (settings st) (channels st) (dvr_jobs st) (dvr_seq st)
    (dvr_recordings st) (timers st) (activeDvrJobs st)
    (runningFFmpegProcesses st) (f (procs st)) (os_running st) (os_next_pid st)
    (effects st).

Definition withOs (running : gset Z) (next : Z) (st : State) : State :=
  mkState (settings st) (channels st) (dvr_jobs st) (dvr_seq st)
    (dvr_recordings st) (timers st) (activeDvrJobs st)
    (runningFFmpegProcesses st) (procs st) running next
    (effects st).

Definition emit (e : Effect) (st : State) : State :=
  mkState (settings st) (channels st) (dvr_jobs st) (dvr_seq st)
    (dvr_recordings st) (timers st) (activeDvrJobs st)
    (runningFFmpegProcesses st) (procs st) (os_running st) (os_next_pid st)
    (effects st ++ [e]).

Definition withEnv (s : Settings) (chs : list Channel) (st : State) : State :=
  mkState s chs (dvr_jobs st) (dvr_seq st)
    (dvr_recordings st) (timers st) (activeDvrJobs st)
    (runningFFmpegProcesses st) (procs st) (os_running st) (os_next_pid st)
    (effects st).

(** *** stopRecording *)

(** [process.kill(pid, sig)] throws [ESRCH] when no such process runs. *)
Definition processKill (pid : Z) (sig : Signal) (st : State) : State * bool :=
  (emit (Kill pid sig) st, negb (bool_decide (pid ∈ os_running st))).

Definition stopRecording (jobId : Z) (st : State) : State :=
  match runningFFmpegProcesses st !! jobId with
  | Some pid =>
      if pid =? 0 then
        emit (Warn ("[DVR] Cannot stop job " +:+ showZ jobId
                    +:+ ": No running ffmpeg process found.")) st
      else
        let (st1, threw) := processKill pid SIGINT st in
        if threw then fst (processKill pid SIGKILL st1) else st1
  | None =>
      emit (Warn ("[DVR] Cannot stop job " +:+ showZ jobId
                  +:+ ": No running ffmpeg process found.")) st
  end.

(** *** startRecording *)

Definition DVR_DIR : string := "/dvr".

Definition isAlnum (c : ascii) : bool :=
  let n := N_of_ascii c in
  ((48 <=? n) && (n <=? 57) || (65 <=? n) && (n <=? 90)
   || (97 <=? n) && (n <=? 122))%N.

Definition toLowerChar (c : ascii) : ascii :=
  let n := N_of_ascii c in
  if ((65 <=? n) && (n <=? 90))%N then ascii_of_N (n + 32) else c.

(** [title.replace(/[^a-z0-9]/gi, '_').toLowerCase()] *)
Fixpoint safeTitle (title : string) : string :=
  match title with
  | EmptyString => EmptyString
  | String c rest =>
      String (if isAlnum c then toLowerChar c else "_"%char) (safeTitle rest)
  end.

Definition fileExtension (recProfile : Profile) : string :=
  if includes "-f mp4" (command recProfile) then ".mp4" else ".ts".

Definition safeFilename (job : DvrJob) (recProfile : Profile) : string :=
  showZ (id job) +:+ "_" +:+ safeTitle (programTitle job) +:+ fileExtension recProfile.

(** [path.join(DVR_DIR, safeFilename)] *)
Definition recordingPath (job : DvrJob) (recProfile : Profile) : string :=
  DVR_DIR +:+ "/" +:+ safeFilename job recProfile.

Inductive Resolution :=
| Unresolved (errorMsg : string)
| Resolved (channel : Channel) (recProfile : Profile) (userAgent : UserAgent).

(** The three lookups at the head of [startRecording].  A missing profile
    id is rendered as the in-memory job object renders it. *)
Definition resolve (s : Settings) (chs : list Channel) (job : DvrJob) : Resolution :=
  match List.find (fun c => String.eqb (ch_id c) (channelId job)) chs with
  | None => Unresolved ("Channel ID " +:+ channelId job +:+ " not found in M3U.")
  | Some channel =>
      match findProfile (profileId job) (recordingProfiles (dvr s)) with
      | None =>
          Unresolved ("Recording profile ID " +:+ String dquote (showOpt (profileId job))
                      +:+ String dquote " not found.")
      | Some recProfile =>
          match findUserAgent (userAgentId job) (userAgents s) with
          | None => Unresolved "User agent not found."
          | Some userAgent => Resolved channel recProfile userAgent
          end
      end
  end.

Definition recordingArgs (s : Settings) (job : DvrJob) (channel : Channel)
    (recProfile : Profile) (userAgent : UserAgent) : list string :=
  splitArgs (dvrCommandTemplate (dvrLogLevel s) (command recProfile)
               (ch_url channel) (ua_value userAgent) (recordingPath job recProfile)).

Definition startRecording (job : DvrJob) (st : State) : State :=
  match resolve (settings st) (channels st) job with
  | Unresolved errorMsg =>
      withJobs (updateWhere (hasId (id job)) (setErrorNoPid errorMsg)) st
  | Resolved channel recProfile userAgent =>
      let path := recordingPath job recProfile in
      let args := recordingArgs (settings st) job channel recProfile userAgent in
      let pid := os_next_pid st in
      let st1 := emit (Spawn pid args) (withOs ({[pid]} ∪ os_running st) (pid + 1) st) in
      let st2 := withProcs (fun ps => ps ++ [mkRecProc pid job path EmptyString false]) st1 in
      let st3 := withRunning (insert (id job) pid) st2 in
      withJobs (updateWhere (hasId (id job)) (setRecording pid path)) st3
  end.

(** *** Events of a recording process *)

(** The outcome of [fs.stat(fullFilePath, ...)]. *)
Inductive StatResult :=
| StatError (message : string)
| StatOk (size : Z).

Definition codeIs (code : option Z) (n : Z) : bool :=
  match code with
  | Some c => c =? n
  | None => false
  end.

(** Template-literal rendering of the exit code ([null] after a signal). *)
Definition showCode (code : option Z) : string :=
  match code with
  | Some c => showZ c
  | None => "null"
  end.

Definition interruptMarker : string := "Exiting normally, received signal 2".

Definition wasStoppedIntentionally (ffmpegErrorOutput : string) (code : option Z) : bool :=
  includes interruptMarker ffmpegErrorOutput || codeIs code 255.

(** [code === 0 || wasStoppedIntentionally] *)
Definition finishedGracefully (ffmpegErrorOutput : string) (code : option Z) : bool :=
  codeIs code 0 || wasStoppedIntentionally ffmpegErrorOutput code.

Definition finalErrorMessage (code : option Z) (stat : StatResult)
    (ffmpegErrorOutput : string) : string :=
  "Recording failed. FFmpeg exit code: " +:+ showCode code +:+ ". " +:+
  match stat with
  | StatError message => "File stat error: " +:+ message
  | StatOk _ => EmptyString
  end +:+ ". FFmpeg output: " +:+ sliceLast 1000 ffmpegErrorOutput.

Definition recordingRow (job : DvrJob) (size : Z) (path : string) : DvrRecording :=
  mkRecording (id job) (user_id job) (channelName job) (programTitle job)
    (startTime job) (roundSeconds (endTime job - startTime job)) size path.

Definition setProc (idx : nat) (rp : RecProc) (st : State) : State :=
  withProcs (fun ps => <[idx := rp]> ps) st.

(** [ffmpeg.stderr.on('data', ...)] *)
Definition onStderr (idx : nat) (data : string) (st : State) : State :=
  match procs st !! idx with
  | Some rp =>
      if closed rp then st
      else setProc idx
             (mkRecProc (rp_pid rp) (rp_job rp) (fullFilePath rp)
                (ffmpegErrorOutput rp +:+ trim data +:+ String "010"%char EmptyString)
                false) st
  | None => st
  end.

(** The operating system reaps the process; ['close'] is delivered later. *)
Definition osExit (idx : nat) (st : State) : State :=
  match procs st !! idx with
  | Some rp => withOs (os_running st ∖ {[rp_pid rp]}) (os_next_pid st) st
  | None => st
  end.

(** [ffmpeg.on('close', code => ...)] with the result of the [fs.stat]
    it issues; [fs.existsSync] agrees with that result. *)
Definition onClose (idx : nat) (code : option Z) (stat : StatResult) (st : State) : State :=
  match procs st !! idx with
  | None => st
  | Some rp =>
      if closed rp then st
      else
        let job := rp_job rp in
        let path := fullFilePath rp in
        let out := ffmpegErrorOutput rp in
        let st0 := setProc idx (mkRecProc (rp_pid rp) job path out true)
                     (withOs (os_running st ∖ {[rp_pid rp]}) (os_next_pid st) st) in
        let st1 := withRunning (delete (id job)) st0 in
        let st2 := match stat with
                   | StatOk _ => emit (Chmod path) st1
                   | StatError _ => st1
                   end in
        match stat with
        | StatOk size =>
            if finishedGracefully out code && (size >? 1024) then
              withJobs (updateWhere (hasId (id job)) setCompletedNoPid)
                (withRecordings (fun rs => rs ++ [recordingRow job size path]) st2)
            else
              let st3 := withJobs (updateWhere (hasId (id job))
                                     (setErrorNoPid (finalErrorMessage code stat out))) st2 in
              if size <=? 1024 then emit (Unlink path) st3 else st3
        | StatError _ =>
            withJobs (updateWhere (hasId (id job))
                        (setErrorNoPid (finalErrorMessage code stat out))) st2
        end
  end.

(** [ffmpeg.on('error', err => ...)] *)
Definition onError (idx : nat) (message : string) (st : State) : State :=
  match procs st !! idx with
  | None => st
  | Some rp =>
      let job := rp_job rp in
      withJobs (updateWhere (hasId (id job))
                  (setErrorNoPid ("Failed to spawn ffmpeg process: " +:+ message)))
        (withRunning (delete (id job)) st)
  end.

(** *** scheduleDvrJob *)

(** [job.cancel()] on a [node-schedule] job: a pending invocation is
    dropped, anything else is left as it is. *)
Definition cancelTimer (t : nat) (ts : list Timer) : list Timer :=
  match ts !! t with
  | Some tm =>
      match timerState tm with
      | Pending => <[t := mkTimer (fireAt tm) (action tm) Canceled]> ts
      | _ => ts
      end
  | None => ts
  end.

(** [if (activeDvrJobs.has(id)) { activeDvrJobs.get(id)?.cancel(); activeDvrJobs.delete(id); }] *)
Definition cancelActive (jobId : Z) (st : State) : State :=
  match activeDvrJobs st !! jobId with
  | Some t => withActive (delete jobId) (withTimers (cancelTimer t) st)
  | None => st
  end.

Definition pastMessage : string := "Job was scheduled for a time in the past.".

Definition scheduleDvrJob (now : Z) (job : DvrJob) (st : State) : State :=
  let st1 := cancelActive (id job) st in
  if endTime job <=? now then
    if statusEqb (status job) scheduled
    then withJobs (updateWhere (hasId (id job)) (setError pastMessage)) st1
    else st1
  else
    let st2 :=
      if startTime job >? now then
        let startJob := List.length (timers st1) in
        withActive (insert (id job) startJob)
          (withTimers (fun ts => ts ++ [mkTimer (startTime job) (StartRecordingOf job) Pending]) st1)
      else startRecording job st1 in
    withTimers (fun ts => ts ++ [mkTimer (endTime job) (StopRecordingOf (id job)) Pending]) st2.

(** [node-schedule] invokes the callback of a pending job once its date
    has come. *)
Definition fireTimer (now : Z) (t : nat) (st : State) : State :=
  match timers st !! t with
  | Some tm =>
      match timerState tm with
      | Pending =>
          if fireAt tm <=? now then
            let st1 := withTimers (fun ts => <[t := mkTimer (fireAt tm) (action tm) Fired]> ts) st in
            match action tm with
            | StartRecordingOf job => startRecording job st1
            | StopRecordingOf jobId => stopRecording jobId st1
            end
          else st
      | _ => st
      end
  | None => st
  end.

(** *** checkForConflicts *)

Definition maxConcurrent (s : Settings) : Z :=
  orElse (maxConcurrentRecordings (dvr s)) 1.

Definition overlaps (newJob existingJob : DvrJob) : bool :=
  (startTime newJob <? endTime existingJob) && (endTime newJob >? startTime existingJob).

(** [SELECT * FROM dvr_jobs WHERE user_id = ? AND status = 'scheduled'] *)
Definition scheduledJobsOf (userId : Z) (rows : list DvrJob) : list DvrJob :=
  List.filter (fun j => (user_id j =? userId) && statusEqb (status j) scheduled) rows.

Definition checkForConflicts (newJob : DvrJob) (userId : Z) (st : State) : list DvrJob :=
  let conflictingJobs := List.filter (overlaps newJob) (scheduledJobsOf userId (dvr_jobs st)) in
  if Z.of_nat (List.length conflictingJobs) >=? maxConcurrent (settings st)
  then conflictingJobs
  else [].

(** *** HTTP handlers *)

Record Session := mkSession {
  userId : Z;
  isAdmin : bool
}.

(** The body of [POST /api/dvr/schedule]. *)
Record ScheduleBody := mkScheduleBody {
  b_channelId : string;
  b_channelName : string;
  b_programTitle : string;
  programStart : Z;
  programStop : Z
}.

Inductive Response :=
| Created (job : DvrJob)                                   (* 201 *)
| Conflict (newJob : DvrJob) (conflictingJobs : list DvrJob) (* 409 *)
| Success                                                  (* 200 *)
| Rescheduled (job : DvrJob)                               (* 200 *)
| BadRequest (message : string)                            (* 400 *)
| NotFound (message : string).                             (* 404 *)

(** The [newJob] object of the schedule handler; it has no [id] yet, the
    record carries [0] there. *)
Definition newJobOf (sess : Session) (body : ScheduleBody) (s : Settings) : DvrJob :=
  let dvrSettings := dvr s in
  let preBuffer := orElse (preBufferMinutes dvrSettings) 0 * 60 * 1000 in
  let postBuffer := orElse (postBufferMinutes dvrSettings) 0 * 60 * 1000 in
  mkJob 0 (userId sess) (b_channelId body) (b_channelName body) (b_programTitle body)
    (programStart body - preBuffer) (programStop body + postBuffer)
    scheduled None None
    (activeRecordingProfileId dvrSettings) (activeUserAgentId s)
    (orElse (preBufferMinutes dvrSettings) 0) (orElse (postBufferMinutes dvrSettings) 0)
    None.

(** [app.post('/api/dvr/schedule')] *)
Definition postSchedule (now : Z) (sess : Session) (body : ScheduleBody) (st : State)
    : State * Response :=
  let newJob := newJobOf sess body (settings st) in
  let conflictingJobs := checkForConflicts newJob (userId sess) st in
  if (0 <? List.length conflictingJobs)%nat then
    (st, Conflict newJob conflictingJobs)
  else
    let lastID := dvr_seq st + 1 in
    let jobWithId := setId lastID newJob in
    let st1 := withSeq lastID (withJobs (fun rows => rows ++ [jobWithId]) st) in
    (scheduleDvrJob now jobWithId st1, Created jobWithId).

(** The [WHERE] clause chosen by [req.session.isAdmin]. *)
Definition mayTouch (sess : Session) (jobId : Z) (j : DvrJob) : bool :=
  if isAdmin sess then hasId jobId j
  else hasId jobId j && (user_id j =? userId sess).

(** [app.delete('/api/dvr/jobs/:id')] *)
Definition deleteJob (sess : Session) (jobId : Z) (st : State) : State * Response :=
  let st1 := cancelActive jobId st in
  if (changes (mayTouch sess jobId) (dvr_jobs st1) =? 0)%nat then
    (st1, NotFound "Job not found or not authorized to cancel.")
  else
    (withJobs (updateWhere (mayTouch sess jobId) (setStatus cancelled)) st1, Success).

(** [app.post('/api/dvr/jobs/:id/stop')] *)
Definition postStop (sess : Session) (jobId : Z) (st : State) : State * Response :=
  let st1 := stopRecording jobId st in
  if (changes (mayTouch sess jobId) (dvr_jobs st1) =? 0)%nat then
    (st1, NotFound "Job not found or not authorized to stop.")
  else
    (withJobs (updateWhere (mayTouch sess jobId) (setStatus completed)) st1, Success).

(** [app.put('/api/dvr/jobs/:id')]; a missing body field is [None]. *)
Definition putJob (now : Z) (sess : Session) (jobId : Z) (newStart newEnd : option Z)
    (st : State) : State * Response :=
  match newStart, newEnd with
  | Some s, Some e =>
      match List.find (mayTouch sess jobId) (dvr_jobs st) with
      | None => (st, NotFound "Job not found or unauthorized.")
      | Some job =>
          if negb (statusEqb (status job) scheduled) then
            (st, BadRequest "Only scheduled jobs can be modified.")
          else
            let st1 := withJobs (updateWhere (hasId jobId) (setWindow s e)) st in
            let updatedJob := setWindow s e job in
            (scheduleDvrJob now updatedJob st1, Rescheduled updatedJob)
      end
  | _, _ => (st, BadRequest "Both startTime and endTime are required.")
  end.

Definition isTerminal (s : JobStatus) : bool :=
  match s with
  | error | cancelled | completed => true
  | _ => false
  end.

(** [app.delete('/api/dvr/jobs/:id/history')] *)
Definition deleteHistory (sess : Session) (jobId : Z) (st : State) : State * Response :=
  match List.find (mayTouch sess jobId) (dvr_jobs st) with
  | None => (st, NotFound "Job not found or unauthorized.")
  | Some job =>
      if isTerminal (status job) then
        (withJobs (List.filter (fun j => negb (hasId jobId j))) st, Success)
      else
        (st, BadRequest "Only completed, cancelled, or error jobs can be removed from history.")
  end.

(** *** The event loop *)

Inductive Event :=
| PostSchedule (sess : Session) (body : ScheduleBody)
| DeleteJob (sess : Session) (jobId : Z)
| PostStop (sess : Session) (jobId : Z)
| PutJob (sess : Session) (jobId : Z) (newStart newEnd : option Z)
| DeleteHistory (sess : Session) (jobId : Z)
| TimerFires (t : nat)
| ProcStderr (proc : nat) (data : string)
| ProcExits (proc : nat)
| ProcClose (proc : nat) (code : option Z) (stat : StatResult)
| ProcError (proc : nat) (message : string)
| SettingsChange (s : Settings) (chs : list Channel).

(** One turn of the event loop at instant [now]. *)
Definition step (now : Z) (ev : Event) (st : State) : State :=
  match ev with
  | PostSchedule sess body => fst (postSchedule now sess body st)
  | DeleteJob sess jobId => fst (deleteJob sess jobId st)
  | PostStop sess jobId => fst (postStop sess jobId st)
  | PutJob sess jobId s e => fst (putJob now sess jobId s e st)
  | DeleteHistory sess jobId => fst (deleteHistory sess jobId st)
  | TimerFires t => fireTimer now t st
  | ProcStderr proc data => onStderr proc data st
  | ProcExits proc => osExit proc st
  | ProcClose proc code stat => onClose proc code stat st
  | ProcError proc message => onError proc message st
  | SettingsChange s chs => withEnv s chs st
  end.

Fixpoint run (evs : list (Z * Event)) (st : State) : State :=
  match evs with
  | [] => st
  | (now, ev) :: rest => run rest (step now ev st)
  end.

(** *** Startup recovery *)

Definition restartMessage : string := "Server restarted during recording.".

(** What survives a restart: the database. *)
Record Database := mkDatabase {
  db_jobs : list DvrJob;
  db_seq : Z;
  db_recordings : list DvrRecording
}.

(** The state of a fresh server process over a persisted database, before
    the job-loading block of the database-open callback has run. *)
Definition boot (s : Settings) (chs : list Channel) (db : Database) (firstPid : Z) : State :=
  mkState s chs (db_jobs db) (db_seq db) (db_recordings db)
    [] ∅ ∅ [] ∅ firstPid [].

(** [UPDATE dvr_jobs SET status = 'error', errorMessage = 'Server restarted
    during recording.' WHERE status = 'recording'] *)
Definition recovered (rows : list DvrJob) : list DvrJob :=
  updateWhere (fun j => statusEqb (status j) recording) (setError restartMessage) rows.

(** "DVR Job Loading and Scheduling" on database open. *)
Definition loadJobs (now : Z) (st : State) : State :=
  let st1 := withJobs recovered st in
  let jobs := List.filter (fun j => statusEqb (status j) scheduled) (dvr_jobs st1) in
  List.fold_left (fun acc job => scheduleDvrJob now job acc) jobs st1.

Definition startup (now : Z) (s : Settings) (chs : list Channel) (db : Database)
    (firstPid : Z) : State :=
  loadJobs now (boot s chs db firstPid).

End Dvr.

(* ================================================================== *)
(** ** StreamSessionManager and InactivityJanitor *)

Module Stream.
Import Js Template Settings.

(** 30 seconds to kill an inactive stream process. *)
Definition STREAM_INACTIVITY_TIMEOUT : Z := 30000.

(** [setInterval(cleanupInactiveStreams, 60000)] *)
Definition JANITOR_PERIOD : Z := 60000.

(** The value stored in [activeStreamProcesses]: a mutable object shared
    by the table and by the close handlers of the requests attached to it. *)
Record StreamInfo := mkStreamInfo {
  process : nat;
  references : Z;
  lastAccess : Z;
  info_userId : Z;
  username : string;
  channelId : option string;
  channelName : string;
  channelLogo : option string;
  streamProfileName : string;
  startTime : Z;
  historyId : Z;
  clientIp : string;
  streamKey : string;
  isTranscoded : bool
}.

Definition setReferences (n now : Z) (i : StreamInfo) : StreamInfo :=
  mkStreamInfo (process i) n now (info_userId i) (username i) (channelId i)
    (channelName i) (channelLogo i) (streamProfileName i) (startTime i)
    (historyId i) (clientIp i) (streamKey i) (isTranscoded i).

Definition registered (now lastID : Z) (i : StreamInfo) : StreamInfo :=
  mkStreamInfo (process i) 1 now (info_userId i) (username i) (channelId i)
    (channelName i) (channelLogo i) (streamProfileName i) (startTime i)
    lastID (clientIp i) (streamKey i) (isTranscoded i).

Inductive HistoryStatus := playing | stopped.

(** A row of [stream_history]. *)
Record HistoryRow := mkHistoryRow {
  h_id : Z;
  h_user_id : Z;
  h_username : string;
  h_channel_id : option string;
  h_channel_name : string;
  h_start_time : Z;
  h_end_time : option Z;
  h_duration_seconds : option Z;
  h_status : HistoryStatus;
  h_client_ip : string;
  h_channel_logo : option string;
  h_stream_profile_name : string
}.

(** A spawned [ffmpeg] child: its handle, the [streamKey] its exit handlers
    captured, and the responses its output is piped to.  [killThrows] is
    whether [process.kill] raises on this handle. *)
Record Proc := mkProc {
  pid : Z;
  args : list string;
  p_streamKey : string;
  killThrows : bool;
  sigkills : nat;
  pipedTo : list nat
}.

(** What the close handler of a request captured. *)
Inductive Attachment :=
| AttachedExisting (info : nat)   (* the [activeStreamInfo] object itself *)
| AttachedNew                     (* looks the key up again on close *)
| NotAttached.                    (* answered without a stream *)

Record Conn := mkConn {
  c_streamKey : string;
  attachment : Attachment;
  requestOpen : bool
}.

(** A queued [INSERT INTO stream_history] with the closure of its callback. *)
Record Insert := mkInsert {
  ins_info : StreamInfo;
  ins_done : bool
}.

Record State := mkState {
  settings : Settings;
  channels : list Channel;
  activeStreamProcesses : JsMap.t (V := nat);
  heap : list StreamInfo;
  procs : list Proc;
  conns : list Conn;
  inserts : list Insert;
  stream_history : list HistoryRow;
  history_seq : Z;
  os_next_pid : Z;
  broadcasts : nat
}.

Definition withTable (f : JsMap.t (V := nat) -> JsMap.t (V := nat)) (st : State) : State :=
  mkState (settings st) (channels st) (f (activeStreamProcesses st)) (heap st)
    (procs st) (conns st) (inserts st) (stream_history st) (history_seq st)
    (os_next_pid st) (broadcasts st).

Definition withHeap (f : list StreamInfo -> list StreamInfo) (st : State) : State :=
  mkState (settings st) (channels st) (activeStreamProcesses st) (f (heap st))
    (procs st) (conns st) (inserts st) (stream_history st) (history_seq st)
    (os_next_pid st) (broadcasts st).

Definition withProcs (f : list Proc -> list Proc) (st : State) : State :=
  mkState (settings st) (channels st) (activeStreamProcesses st) (heap st)
    (f (procs st)) (conns st) (inserts st) (stream_history st) (history_seq st)
    (os_next_pid st) (broadcasts st).

Definition withConns (f : list Conn -> list Conn) (st : State) : State :=
  mkState (settings st) (channels st) (activeStreamProcesses st) (heap st)
    (procs st) (f (conns st)) (inserts st) (stream_history st) (history_seq st)
    (os_next_pid st) (broadcasts st).

Definition withInserts (f : list Insert -> list Insert) (st : State) : State :=
  mkState (settings st) (channels st) (activeStreamProcesses st) (heap st)
    (procs st) (conns st) (f (inserts st)) (stream_history st) (history_seq st)
    (os_next_pid st) (broadcasts st).

Definition withHistory (f : list HistoryRow -> list HistoryRow) (seq : Z) (st : State) : State :=
  mkState (settings st) (channels st) (activeStreamProcesses st) (heap st)
    (procs st) (conns st) (inserts st) (f (stream_history st)) seq
    (os_next_pid st) (broadcasts st).

Definition withNextPid (n : Z) (st : State) : State :=
  mkState (settings st) (channels st) (activeStreamProcesses st) (heap st)
    (procs st) (conns st) (inserts st) (stream_history st) (history_seq st)
    n (broadcasts st).

(** [broadcastAdminUpdate()] *)
Definition broadcastAdminUpdate (st : State) : State :=
  mkState (settings st) (channels st) (activeStreamProcesses st) (heap st)
    (procs st) (conns st) (inserts st) (stream_history st) (history_seq st)
    (os_next_pid st) (S (broadcasts st)).

Definition withEnv (s : Settings) (chs : list Channel) (st : State) : State :=
  mkState s chs (activeStreamProcesses st) (heap st)
    (procs st) (conns st) (inserts st) (stream_history st) (history_seq st)
    (os_next_pid st) (broadcasts st).

(** [activeStreamProcesses.get(streamKey)], dereferenced. *)
Definition lookup (streamKey : string) (st : State) : option StreamInfo :=
  match JsMap.get streamKey (activeStreamProcesses st) with
  | Some a => heap st !! a
  | None => None
  end.

(** [UPDATE stream_history SET end_time, duration_seconds, status = 'stopped'
    WHERE id = ? AND status = 'playing'], issued when [historyId] is truthy. *)
Definition stopRow (now : Z) (info : StreamInfo) (r : HistoryRow) : HistoryRow :=
  match h_status r with
  | playing =>
      if h_id r =? historyId info then
        mkHistoryRow (h_id r) (h_user_id r) (h_username r) (h_channel_id r)
          (h_channel_name r) (h_start_time r) (Some now)
          (Some (roundSeconds (now - startTime info))) stopped
          (h_client_ip r) (h_channel_logo r) (h_stream_profile_name r)
      else r
  | stopped => r
  end.

Definition finalizeHistory (now : Z) (info : StreamInfo) (st : State) : State :=
  if historyId info =? 0 then st
  else withHistory (List.map (stopRow now info)) (history_seq st) st.

(** [info.process.kill('SIGKILL')]: the updated state and whether the call
    threw. *)
Definition kill (p : nat) (st : State) : State * bool :=
  match procs st !! p with
  | Some pr =>
      if killThrows pr then (st, true)
      else (withProcs (fun ps => <[p := mkProc (pid pr) (args pr) (p_streamKey pr)
                                           false (S (sigkills pr)) (pipedTo pr)]> ps) st,
            false)
  | None => (st, true)
  end.

(** *** GET /stream *)

(** The query and session of one [GET /stream] request. *)
Record Request := mkRequest {
  url : option string;
  profileId : option string;
  userAgentId : option string;
  vodName : option string;
  vodLogo : option string;
  userId : Z;
  req_username : string;
  req_clientIp : string
}.

Inductive Response :=
| Piped (proc : nat) (contentType : string)
| Redirect (location : string)          (* 302 *)
| Status (code : Z) (body : string)
| Json (success : bool) (message : string).

(** A query parameter is truthy when present and not empty. *)
Definition truthy (o : option string) : option string :=
  match o with
  | Some EmptyString => None
  | _ => o
  end.

(** [`${userId}::${streamUrl}::${profileId}`] *)
Definition streamKeyOf (userId : Z) (streamUrl profileId : option string) : string :=
  showZ userId +:+ "::" +:+ showOpt streamUrl +:+ "::" +:+ showOpt profileId.

Definition pipe (p conn : nat) (st : State) : State :=
  match procs st !! p with
  | Some pr =>
      withProcs (fun ps => <[p := mkProc (pid pr) (args pr) (p_streamKey pr)
                                    (killThrows pr) (sigkills pr) (pipedTo pr ++ [conn])]> ps) st
  | None => st
  end.

Definition contentTypeOf (profile : Profile) : string :=
  if includes "-f mp4" (command profile) then "video/mp4" else "video/mp2t".

(** The display metadata of the stream: a VOD name when given, else the
    channel of the directory with this URL. *)
Definition describe (req : Request) (streamUrl : string) (st : State)
    : string * option string * option string :=
  match truthy (vodName req) with
  | Some name => (name, None, truthy (vodLogo req))
  | None =>
      match List.find (fun c => String.eqb (ch_url c) streamUrl) (channels st) with
      | Some channel =>
          (match truthy (ch_displayName channel) with
           | Some d => d
           | None => ch_name channel
           end, Some (ch_id channel), ch_logo channel)
      | None => ("Direct Stream", None, None)
      end
  end.

(** The part of the handler that runs when no session exists for the key. *)
Definition startStream (now : Z) (req : Request) (streamKey : string) (conn : nat)
    (st : State) : State * Response :=
  match truthy (url req) with
  | None =>
      (withConns (fun cs => cs ++ [mkConn streamKey NotAttached true]) st,
       Status 400 "Error: `url` query parameter is required.")
  | Some streamUrl =>
      let found :=
        match findProfile (profileId req) (streamProfiles (settings st)) with
        | Some p => Some p
        | None => findProfile (profileId req) (castProfiles (settings st))
        end in
      match found with
      | None =>
          (withConns (fun cs => cs ++ [mkConn streamKey NotAttached true]) st,
           Status 404 ("Error: Stream profile with ID " +:+ String dquote (showOpt (profileId req))
                       +:+ String dquote " not found."))
      | Some profile =>
          if String.eqb (command profile) "redirect" then
            (withConns (fun cs => cs ++ [mkConn streamKey NotAttached true]) st,
             Redirect streamUrl)
          else
            match findUserAgent (userAgentId req) (userAgents (settings st)) with
            | None =>
                (withConns (fun cs => cs ++ [mkConn streamKey NotAttached true]) st,
                 Status 404 ("Error: User agent with ID " +:+ String dquote (showOpt (userAgentId req))
                             +:+ String dquote " not found."))
            | Some userAgent =>
                let '(name, chId, logo) := describe req streamUrl st in
                let argv := splitArgs (liveCommandTemplate (playerLogLevel (settings st))
                                         (command profile) streamUrl (ua_value userAgent)) in
                let ffmpeg := List.length (procs st) in
                let newPid := os_next_pid st in
                let st1 := withNextPid (newPid + 1)
                             (withProcs (fun ps => ps ++ [mkProc newPid argv streamKey false O [conn]]) st) in
                let closure := mkStreamInfo ffmpeg 1 0 (userId req) (req_username req) chId
                                 name logo (p_name profile) now 0 (req_clientIp req)
                                 streamKey true in
                let st2 := withInserts (fun q => q ++ [mkInsert closure false]) st1 in
                (withConns (fun cs => cs ++ [mkConn streamKey AttachedNew true]) st2,
                 Piped ffmpeg (contentTypeOf profile))
            end
      end
  end.

(** [app.get('/stream')] *)
Definition getStream (now : Z) (req : Request) (st : State) : State * Response :=
  let streamKey := streamKeyOf (userId req) (url req) (profileId req) in
  let conn := List.length (conns st) in
  match JsMap.get streamKey (activeStreamProcesses st) with
  | Some a =>
      match heap st !! a with
      | Some activeStreamInfo =>
          let st1 := withHeap (fun h => <[a := setReferences (references activeStreamInfo + 1)
                                                 now activeStreamInfo]> h) st in
          let st2 := pipe (process activeStreamInfo) conn st1 in
          (withConns (fun cs => cs ++ [mkConn streamKey (AttachedExisting a) true]) st2,
           Piped (process activeStreamInfo) EmptyString)
      | None => startStream now req streamKey conn st
      end
  | None => startStream now req streamKey conn st
  end.

(** The callback of the queued history [INSERT]: on success the row exists
    with [this.lastID] and the session is registered under its key. *)
Definition onInsertDone (now : Z) (i : nat) (err : bool) (st : State) : State :=
  match inserts st !! i with
  | Some ins =>
      if ins_done ins then st
      else
        let st1 := withInserts (fun q => <[i := mkInsert (ins_info ins) true]> q) st in
        if err then st1
        else
          let c := ins_info ins in
          let lastID := history_seq st + 1 in
          let row := mkHistoryRow lastID (info_userId c) (username c) (channelId c)
                       (channelName c) (startTime c) None None playing (clientIp c)
                       (channelLogo c) (streamProfileName c) in
          let st2 := withHistory (fun rows => rows ++ [row]) lastID st1 in
          let a := List.length (heap st2) in
          let st3 := withHeap (fun h => h ++ [registered now lastID c]) st2 in
          broadcastAdminUpdate (withTable (JsMap.set (streamKey c) a) st3)
  | None => st
  end.

Definition closeConn (c : nat) (conn : Conn) (st : State) : State :=
  withConns (fun cs => <[c := mkConn (c_streamKey conn) (attachment conn) false]> cs) st.

Definition release (now : Z) (a : nat) (st : State) : State :=
  match heap st !! a with
  | Some info =>
      withHeap (fun h => <[a := setReferences (references info - 1) now info]> h) st
  | None => st
  end.

(** [req.on('close', ...)] of either branch. *)
Definition onReqClose (now : Z) (c : nat) (st : State) : State :=
  match conns st !! c with
  | Some conn =>
      if requestOpen conn then
        let st1 := closeConn c conn st in
        match attachment conn with
        | AttachedExisting a => release now a st1
        | AttachedNew =>
            match JsMap.get (c_streamKey conn) (activeStreamProcesses st1) with
            | Some a => release now a st1
            | None => st1
            end
        | NotAttached => st1
        end
      else st
  | None => st
  end.

(** [cleanupOnExit], run by the ['close'] and ['error'] events of a child. *)
Definition cleanupOnExit (now : Z) (p : nat) (st : State) : State :=
  match procs st !! p with
  | Some pr =>
      let key := p_streamKey pr in
      let st1 := match lookup key st with
                 | Some info => finalizeHistory now info st
                 | None => st
                 end in
      broadcastAdminUpdate (withTable (JsMap.delete key) st1)
  | None => st
  end.

(** *** POST /api/stream/stop *)

(** The key the stop handler resolves from the user, the URL and the
    optional profile id. *)
Definition resolveStopKey (userId : Z) (streamUrl : string) (profileId : option string)
    (st : State) : string :=
  match truthy profileId with
  | Some p => showZ userId +:+ "::" +:+ streamUrl +:+ "::" +:+ p
  | None =>
      let partialKey := showZ userId +:+ "::" +:+ streamUrl in
      if JsMap.has partialKey (activeStreamProcesses st) then partialKey
      else
        match List.find (startsWith (partialKey +:+ "::"))
                (JsMap.keys (activeStreamProcesses st)) with
        | Some key => key
        | None => partialKey
        end
  end.

(** [app.post('/api/stream/stop')] *)
Definition postStop (now : Z) (userId : Z) (streamUrl profileId : option string)
    (st : State) : State * Response :=
  match truthy streamUrl with
  | None => (st, Status 400 "Stream URL is required to stop the stream.")
  | Some u =>
      let streamKey := resolveStopKey userId u profileId st in
      match lookup streamKey st with
      | Some activeStreamInfo =>
          if references activeStreamInfo >? 1 then
            (st, Json true "Stream kept alive for other active clients.")
          else
            let st1 := finalizeHistory now activeStreamInfo st in
            let st2 :=
              match kill (process activeStreamInfo) st1 with
              | (st', false) =>
                  broadcastAdminUpdate (withTable (JsMap.delete streamKey) st')
              | (st', true) => st'      (* catch: only a warning *)
              end in
            (st2, Json true ("Stream process for " +:+ streamKey +:+ " terminated."))
      | None => (st, Json true "No active stream to stop.")
      end
  end.

(** *** The janitor *)

Definition isStale (now : Z) (streamInfo : StreamInfo) : bool :=
  (references streamInfo <=? 0)
  && (now - lastAccess streamInfo >? STREAM_INACTIVITY_TIMEOUT).

(** The callback of [activeStreamProcesses.forEach]. *)
Definition sweepEntry (now : Z) (st : State) (entry : string * nat) : State :=
  let (key, a) := entry in
  match heap st !! a with
  | Some streamInfo =>
      if isStale now streamInfo then
        let st1 := finalizeHistory now streamInfo st in
        match kill (process streamInfo) st1 with
        | (st', false) =>
            broadcastAdminUpdate (withTable (JsMap.delete key) st')
        | (st', true) =>        (* catch *)
            broadcastAdminUpdate (withTable (JsMap.delete key) st')
        end
      else st
  | None => st
  end.

(** [cleanupInactiveStreams]: the callback only ever deletes the entry it
    is visiting, so visiting the entries present at the start is what
    [forEach] does. *)
Definition cleanupInactiveStreams (now : Z) (st : State) : State :=
  List.fold_left (sweepEntry now) (activeStreamProcesses st) st.

(** *** The event loop *)

Inductive Event :=
| GetStream (req : Request)
| InsertDone (i : nat) (err : bool)
| ReqClose (conn : nat)
| ChildClose (p : nat)
| ChildError (p : nat)
| StopStream (userId : Z) (streamUrl profileId : option string)
| Janitor
| KillWillThrow (p : nat) (throws : bool)
| SettingsChange (s : Settings) (chs : list Channel).

Definition setKillThrows (p : nat) (b : bool) (st : State) : State :=
  match procs st !! p with
  | Some pr =>
      withProcs (fun ps => <[p := mkProc (pid pr) (args pr) (p_streamKey pr) b
                                    (sigkills pr) (pipedTo pr)]> ps) st
  | None => st
  end.

Definition step (now : Z) (ev : Event) (st : State) : State :=
  match ev with
  | GetStream req => fst (getStream now req st)
  | InsertDone i err => onInsertDone now i err st
  | ReqClose c => onReqClose now c st
  | ChildClose p => cleanupOnExit now p st
  | ChildError p => cleanupOnExit now p st
  | StopStream u streamUrl profileId => fst (postStop now u streamUrl profileId st)
  | Janitor => cleanupInactiveStreams now st
  | KillWillThrow p b => setKillThrows p b st
  | SettingsChange s chs => withEnv s chs st
  end.

Fixpoint run (evs : list (Z * Event)) (st : State) : State :=
  match evs with
  | [] => st
  | (now, ev) :: rest => run rest (step now ev st)
  end.

Definition boot (s : Settings) (chs : list Channel) (firstPid : Z) : State :=
  mkState s chs [] [] [] [] [] [] 0 firstPid O.

(** Requests attached to a stream under [key] whose connection is open. *)
Definition attachedOpen (key : string) (c : Conn) : bool :=
  String.eqb (c_streamKey c) key && requestOpen c &&
  match attachment c with
  | NotAttached => false
  | _ => true
  end.

Definition undetached (key : string) (st : State) : nat :=
  List.length (List.filter (attachedOpen key) (conns st)).

(** Children spawned for [key]. *)
Definition spawnedFor (key : string) (st : State) : nat :=
  List.length (List.filter (fun pr => String.eqb (p_streamKey pr) key) (procs st)).

End Stream.

(* ================================================================== *)
(** ** Sample configuration: an excerpt of [defaultSettings] *)

Module Sample.
Import Js Settings.

Definition quoted (s : string) : string := String dquote (s +:+ String dquote EmptyString).

Definition defaultUserAgent : UserAgent :=
  mkUserAgent "default-ua-1724778434000" "ViniPlay Default" "VLC/3.0.20 (Linux; x86_64)".

Definition redirectProfile : Profile :=
  mkProfile "redirect" "Redirect (No Transcoding)" "redirect".

Definition ffmpegDefault : Profile :=
  mkProfile "ffmpeg-default" "ffmpeg (Built in)"
    ("-user_agent " +:+ quoted "{userAgent}" +:+ " -i " +:+ quoted "{streamUrl}"
     +:+ " -c:v libx264 -preset ultrafast -crf 23 -c:a aac -b:a 128k -f mpegts pipe:1").

Definition dvrTsDefault : Profile :=
  mkProfile "dvr-ts-default" "Default TS (Stream Copy, Timeshiftable)"
    ("-user_agent " +:+ quoted "{userAgent}" +:+ " -i " +:+ quoted "{streamUrl}"
     +:+ " -c copy -f mpegts " +:+ quoted "{filePath}").

Definition defaultSettings : Settings :=
  mkSettings [defaultUserAgent] [redirectProfile; ffmpegDefault] []
    (mkDvrSettings (Some 1) (Some 2) (Some 1) (Some "dvr-ts-default") [dvrTsDefault])
    (Some "default-ua-1724778434000") "warning" "warning".

Definition channelOne : Channel :=
  mkChannel "ch1" "http://provider.example/live/1.ts" "One" None None.

(** Days between 1970-01-01 and a date of the proleptic Gregorian calendar. *)
Definition daysFromCivil (y m d : Z) : Z :=
  let y' := if m <=? 2 then y - 1 else y in
  let era := y' / 400 in
  let yoe := y' - era * 400 in
  let mp := (m + 9) mod 12 in
  let doy := (153 * mp + 2) / 5 + d - 1 in
  let doe := yoe * 365 + yoe / 4 - yoe / 100 + doy in
  era * 146097 + doe - 719468.

(** The instant [new Date("y-m-dTh:mi:sZ").getTime()]. *)
Definition utc (y m d h mi s : Z) : Z :=
  (((daysFromCivil y m d * 24 + h) * 60 + mi) * 60 + s) * 1000.

(** A freshly started scheduler over an empty database, a viewer and a
    schedule request for a one-hour programme. *)
Definition emptyDb : Dvr.Database := Dvr.mkDatabase [] 0 [].

Definition freshDvr : Dvr.State := Dvr.boot defaultSettings [channelOne] emptyDb 5000.

Definition viewer : Dvr.Session := Dvr.mkSession 7 false.

Definition newsBody : Dvr.ScheduleBody :=
  Dvr.mkScheduleBody "ch1" "One" "News at 8" (utc 2024 1 1 20 0 0) (utc 2024 1 1 21 0 0).

(** The scheduler after the programme has been scheduled once, an hour
    before it starts. *)
Definition afterNews : Dvr.State :=
  fst (Dvr.postSchedule (utc 2024 1 1 19 0 0) viewer newsBody freshDvr).

(** The programme is being recorded: its start timer has fired. *)
Definition recordingNews : Dvr.State :=
  Dvr.fireTimer (utc 2024 1 1 19 59 0) 0 afterNews.

Definition newsJob : Dvr.DvrJob :=
  Dvr.setId 1 (Dvr.newJobOf viewer newsBody defaultSettings).

Definition newsProc : Dvr.RecProc :=
  Dvr.mkRecProc 5000 newsJob "/dvr/1_news_at_8.ts" EmptyString false.

(** A database as a crash at 20:30 leaves it: one job was recording, one
    is over, one should be running, one is still ahead. *)
Definition jobAt (i : Z) (s e : Z) (st : Dvr.JobStatus) : Dvr.DvrJob :=
  Dvr.mkJob i 7 "ch1" "One" "Show" s e st None None (Some "dvr-ts-default")
    (Some "default-ua-1724778434000") 1 2 None.

Definition interruptedJob : Dvr.DvrJob :=
  jobAt 1 (utc 2024 1 1 20 0 0) (utc 2024 1 1 21 0 0) Dvr.recording.

Definition missedJob : Dvr.DvrJob :=
  jobAt 2 (utc 2024 1 1 18 0 0) (utc 2024 1 1 19 0 0) Dvr.scheduled.

Definition dueJob : Dvr.DvrJob :=
  jobAt 3 (utc 2024 1 1 20 15 0) (utc 2024 1 1 21 15 0) Dvr.scheduled.

Definition laterJob : Dvr.DvrJob :=
  jobAt 4 (utc 2024 1 1 22 0 0) (utc 2024 1 1 23 0 0) Dvr.scheduled.

Definition crashedDb : Dvr.Database :=
  Dvr.mkDatabase [interruptedJob; missedJob; dueJob; laterJob] 4 [].

Definition restarted : Dvr.State :=
  Dvr.startup (utc 2024 1 1 20 30 0) defaultSettings [channelOne] crashedDb 5000.

(** The programme is scheduled, and its channel has since left the
    channel directory. *)
Definition channelGone : Dvr.State := Dvr.withEnv defaultSettings [] afterNews.

(** A viewer requests channel one through the built-in profile. *)
Definition watchOne : Stream.Request :=
  Stream.mkRequest (Some "http://provider.example/live/1.ts") (Some "ffmpeg-default")
    (Some "default-ua-1724778434000") None None 7 "ann" "10.0.0.2".

Definition keyOne : string := "7::http://provider.example/live/1.ts::ffmpeg-default".

Definition freshStreams : Stream.State := Stream.boot defaultSettings [channelOne] 4000.

(** The request has been served and its session registered ... *)
Definition watching : list (Z * Stream.Event) :=
  [(1000, Stream.GetStream watchOne); (1010, Stream.InsertDone 0 false)].

(** ... and the viewer has gone away at 20 s without stopping the stream. *)
Definition abandoned : list (Z * Stream.Event) :=
  watching ++ [(20000, Stream.ReqClose 0)].

Definition urlOne : string := "http://provider.example/live/1.ts".

(** The session object and the child that [watching] leaves behind. *)
Definition sessionOne : Stream.StreamInfo :=
  Stream.mkStreamInfo 0 1 1010 7 "ann" (Some "ch1") "One" None "ffmpeg (Built in)"
    1000 1 "10.0.0.2" keyOne true.

Definition childOne : Stream.Proc :=
  Stream.mkProc 4000
    (Template.splitArgs
       (Template.liveCommandTemplate "warning" (command ffmpegDefault) urlOne
          (ua_value defaultUserAgent)))
    keyOne false O [O].

(** The session is registered and the handle of its child raises on
    [kill]. *)
Definition unkillable : list (Z * Stream.Event) :=
  watching ++ [(1500, Stream.KillWillThrow 0 true)].

(** Two requests for the same key arrive before the history insert of the
    first has called back; then both callbacks run. *)
Definition racing : list (Z * Stream.Event) :=
  [(1000, Stream.GetStream watchOne); (1001, Stream.GetStream watchOne);
   (1010, Stream.InsertDone 0 false); (1011, Stream.InsertDone 1 false)].

(** The same two requests, the second one after the first is registered. *)
Definition sharing : list (Z * Stream.Event) :=
  [(1000, Stream.GetStream watchOne); (1010, Stream.InsertDone 0 false);
   (1020, Stream.GetStream watchOne)].

End Sample.

(* ================================================================== *)
(** ** Vocabulary of the statements *)

Module Spec.
Import Js Template Sample.

(** A command template seen as literal text and placeholders. *)
Inductive Piece :=
| Lit (text : string)
| StreamUrl
| UserAgent
| ClientUserAgent
| FilePath.

Definition renderPiece (p : Piece) : string :=
  match p with
  | Lit text => text
  | StreamUrl => "{streamUrl}"
  | UserAgent => "{userAgent}"
  | ClientUserAgent => "{clientUserAgent}"
  | FilePath => "{filePath}"
  end.

Fixpoint render (ps : list Piece) : string :=
  match ps with
  | [] => EmptyString
  | p :: rest => renderPiece p +:+ render rest
  end.

Fixpoint noChar (x : ascii) (s : string) : bool :=
  match s with
  | EmptyString => true
  | String c rest => negb (Ascii.eqb c x) && noChar x rest
  end.

(** Text that neither opens a placeholder nor carries a [$] pattern. *)
Definition plain (s : string) : bool := noChar lbrace s && noChar dollar s.

Definition literalOk (p : Piece) : bool :=
  match p with
  | Lit text => noChar lbrace text
  | _ => true
  end.

Definition samePiece (a b : Piece) : bool :=
  match a, b with
  | StreamUrl, StreamUrl | UserAgent, UserAgent
  | ClientUserAgent, ClientUserAgent | FilePath, FilePath => true
  | _, _ => false
  end.

(** Replace the placeholders listed in [targets] by the text [v]. *)
Definition fill (targets : list Piece) (v : string) (p : Piece) : Piece :=
  if List.existsb (samePiece p) targets then Lit v else p.

(** What the live path makes of a piece. *)
Definition liveFill (streamUrl userAgent : string) (p : Piece) : Piece :=
  match p with
  | StreamUrl => Lit streamUrl
  | UserAgent | ClientUserAgent => Lit userAgent
  | _ => p
  end.

(** What the recording path makes of a piece. *)
Definition dvrFill (streamUrl userAgent filePath : string) (p : Piece) : Piece :=
  match p with
  | StreamUrl => Lit streamUrl
  | UserAgent => Lit userAgent
  | FilePath => Lit filePath
  | _ => p
  end.

(** An argument as the author of a template writes it: a bare word, or a
    text between double quotes. *)
Inductive Arg :=
| Bare (word : string)
| Quoted (text : string).

Definition argText (a : Arg) : string :=
  match a with
  | Bare word => word
  | Quoted text => text
  end.

Definition renderArg (a : Arg) : string :=
  match a with
  | Bare word => word
  | Quoted text => quoted text
  end.

Fixpoint renderArgs (l : list Arg) : string :=
  match l with
  | [] => EmptyString
  | a :: rest =>
      match rest with
      | [] => renderArg a
      | _ => renderArg a +:+ " " +:+ renderArgs rest
      end
  end.

Fixpoint ordinary (s : string) : bool :=
  match s with
  | EmptyString => true
  | String c rest => negb (isWhiteSpace c) && negb (isQuote c) && ordinary rest
  end.

Definition argOk (a : Arg) : bool :=
  match a with
  | Bare word => negb (String.eqb word EmptyString) && ordinary word
  | Quoted text => negb (hasQuote text)
  end.

(** The identity and the recording window of a job row. *)
Definition window (j : Dvr.DvrJob) : Z * Z * Z :=
  (Dvr.id j, Dvr.startTime j, Dvr.endTime j).

(** The jobs a candidate window conflicts with: the same user's jobs in
    status [scheduled] with [newStart < existingEnd] and
    [newEnd > existingStart]. *)
Definition conflictsWith (newStart newEnd userId : Z) (rows : list Dvr.DvrJob)
    : list Dvr.DvrJob :=
  List.filter
    (fun j => (Dvr.user_id j =? userId) && Dvr.statusEqb (Dvr.status j) Dvr.scheduled
              && (newStart <? Dvr.endTime j) && (newEnd >? Dvr.startTime j))
    rows.

Definition rejected (r : Dvr.Response) : Prop :=
  exists newJob conflictingJobs, r = Dvr.Conflict newJob conflictingJobs.

(** Primary key and AUTOINCREMENT of [dvr_jobs]. *)
Definition dbOk (st : Dvr.State) : Prop :=
  NoDup (List.map Dvr.id (Dvr.dvr_jobs st))
  /\ Forall (fun j => Dvr.id j <= Dvr.dvr_seq st) (Dvr.dvr_jobs st).

(** The job a timer belongs to. *)
Definition timerJobId (a : Dvr.TimerAction) : Z :=
  match a with
  | Dvr.StartRecordingOf job => Dvr.id job
  | Dvr.StopRecordingOf jobId => jobId
  end.

Definition isStartTimer (tm : Dvr.Timer) : Prop :=
  exists job, Dvr.action tm = Dvr.StartRecordingOf job.

(** [activeDvrJobs] only ever holds start timers. *)
Definition activeStartsOnly (st : Dvr.State) : Prop :=
  forall k t, Dvr.activeDvrJobs st !! k = Some t ->
    exists tm, Dvr.timers st !! t = Some tm /\ isStartTimer tm.

(** What a handler working on other jobs leaves alone for job [i]: its
    row, its entries in both maps, the environment; timers and effects are
    only added, and no added timer belongs to [i]. *)
Definition leavesAlone (i : Z) (st st' : Dvr.State) : Prop :=
  Dvr.getJob i (Dvr.dvr_jobs st') = Dvr.getJob i (Dvr.dvr_jobs st)
  /\ Dvr.activeDvrJobs st' !! i = Dvr.activeDvrJobs st !! i
  /\ Dvr.runningFFmpegProcesses st' !! i = Dvr.runningFFmpegProcesses st !! i
  /\ Dvr.settings st' = Dvr.settings st
  /\ Dvr.channels st' = Dvr.channels st
  /\ (exists more, Dvr.effects st' = Dvr.effects st ++ more)
  /\ (exists new, Dvr.timers st' = Dvr.timers st ++ new
                  /\ Forall (fun tm => timerJobId (Dvr.action tm) <> i) new).

(** Whether the session object at heap address [a] is stale at [now]. *)
Definition staleAt (now : Z) (heap : list Stream.StreamInfo) (a : nat) : bool :=
  match heap !! a with
  | Some info => Stream.isStale now info
  | None => false
  end.

(** Children keep their handle; the count of [SIGKILL]s only grows. *)
Definition procsGrow (st st' : Stream.State) : Prop :=
  forall p pr, Stream.procs st !! p = Some pr ->
    exists pr', Stream.procs st' !! p = Some pr'
                /\ (Stream.sigkills pr <= Stream.sigkills pr')%nat
                /\ Stream.killThrows pr' = Stream.killThrows pr.

(** The status changes the scheduler makes by design. *)
Inductive lifecycle : Dvr.JobStatus -> Dvr.JobStatus -> Prop :=
| lc_stay s : lifecycle s s
| lc_start : lifecycle Dvr.scheduled Dvr.recording
| lc_unstartable : lifecycle Dvr.scheduled Dvr.error
| lc_cancel : lifecycle Dvr.scheduled Dvr.cancelled
| lc_finish : lifecycle Dvr.recording Dvr.completed
| lc_fail : lifecycle Dvr.recording Dvr.error.

(** The lifecycle without the direct step from [scheduled] to [error]. *)
Inductive lifecycleAsClaimed : Dvr.JobStatus -> Dvr.JobStatus -> Prop :=
| lcc_stay s : lifecycleAsClaimed s s
| lcc_start : lifecycleAsClaimed Dvr.scheduled Dvr.recording
| lcc_cancel : lifecycleAsClaimed Dvr.scheduled Dvr.cancelled
| lcc_finish : lifecycleAsClaimed Dvr.recording Dvr.completed
| lcc_fail : lifecycleAsClaimed Dvr.recording Dvr.error.

(** An event meets job [i], whose row is [r], in the status its handler is
    written for: a cancel meets a scheduled job, a stop and the events of
    the recording process a recording job, the start timer a scheduled
    job.  Other events carry no such expectation. *)
Definition inOrder (ev : Dvr.Event) (st : Dvr.State) (i : Z) (r : Dvr.DvrJob) : Prop :=
  match ev with
  | Dvr.DeleteJob _ jobId => jobId = i -> Dvr.status r = Dvr.scheduled
  | Dvr.PostStop _ jobId => jobId = i -> Dvr.status r = Dvr.recording
  | Dvr.TimerFires t =>
      forall tm job, Dvr.timers st !! t = Some tm ->
        Dvr.action tm = Dvr.StartRecordingOf job -> Dvr.id job = i ->
        Dvr.status r = Dvr.scheduled
  | Dvr.ProcClose p _ _ | Dvr.ProcError p _ =>
      forall rp, Dvr.procs st !! p = Some rp -> Dvr.id (Dvr.rp_job rp) = i ->
        Dvr.status r = Dvr.recording
  | _ => True
  end.

End Spec.

(* ================================================================== *)
(** * Facts *)

Import Js Template Settings Sample Spec.

(** ** Strings *)

Lemma sapp_nil_l (s : string) : EmptyString +:+ s = s.
Proof. reflexivity. Qed.

Lemma sapp_cons (c : ascii) (s t : string) : String c s +:+ t = String c (s +:+ t).
Proof. reflexivity. Qed.

Lemma sapp_nil_r (s : string) : s +:+ EmptyString = s.
Proof. induction s as [|c s IH]; [reflexivity|]. rewrite sapp_cons, IH. reflexivity. Qed.

Lemma sapp_assoc (s t u : string) : (s +:+ t) +:+ u = s +:+ (t +:+ u).
Proof.
  induction s as [|c s IH]; [reflexivity|].
  rewrite !sapp_cons, IH. reflexivity.
Qed.

Lemma sapp_snoc (s : string) (c : ascii) (t : string) :
  (s +:+ String c EmptyString) +:+ t = s +:+ String c t.
Proof. rewrite sapp_assoc. reflexivity. Qed.

Lemma slength_app (s t : string) :
  String.length (s +:+ t) = (String.length s + String.length t)%nat.
Proof.
  induction s as [|c s IH]; [reflexivity|].
  rewrite sapp_cons. simpl. rewrite IH. reflexivity.
Qed.

Lemma dropChars_app (s t : string) : dropChars (String.length s) (s +:+ t) = t.
Proof. induction s as [|c s IH]; [reflexivity|]. rewrite sapp_cons. simpl. exact IH. Qed.

Lemma startsWith_app (p rest : string) : startsWith p (p +:+ rest) = true.
Proof.
  induction p as [|c p IH]; [reflexivity|].
  rewrite sapp_cons. simpl. rewrite Ascii.eqb_refl. exact IH.
Qed.

(** [slice(-n)] returns a suffix of the string, of [n] code units unless
    the string is shorter. *)
Lemma dropChars_suffix (n : nat) (s : string) :
  exists pre, s = pre +:+ dropChars n s /\ String.length pre = Nat.min n (String.length s).
Proof.
  revert s. induction n as [|n IH]; intros s.
  - exists EmptyString. split; reflexivity.
  - destruct s as [|c s].
    + exists EmptyString. split; reflexivity.
    + destruct (IH s) as (pre & Hs & Hl). exists (String c pre). split.
      * rewrite sapp_cons. simpl. f_equal. exact Hs.
      * simpl. rewrite Hl. reflexivity.
Qed.

Lemma sliceLast_suffix (n : nat) (s : string) :
  exists pre, s = pre +:+ sliceLast n s
              /\ String.length (sliceLast n s) = Nat.min n (String.length s).
Proof.
  unfold sliceLast.
  destruct (dropChars_suffix (String.length s - n) s) as (pre & Hs & Hl).
  exists pre. split; [exact Hs|].
  assert (Hlen : String.length s
                 = (String.length pre + String.length (dropChars (String.length s - n) s))%nat).
  { rewrite <- slength_app, <- Hs. reflexivity. }
  lia.
Qed.

(** ** Placeholder substitution *)

Lemma getSubstitution_plain (m before after repl : string) :
  noChar dollar repl = true -> getSubstitution m before after repl = repl.
Proof.
  induction repl as [|c r IH]; intros H; [reflexivity|].
  simpl in H. apply andb_true_iff in H as [Hc Hr].
  apply negb_true_iff in Hc. simpl. rewrite Hc, (IH Hr). reflexivity.
Qed.

Section Replace.
Variables (alts : list string) (repl : string).

Lemma replaceFrom_skip (u before rest : string) :
  replaceFrom alts repl before (String.length u) (u +:+ rest)
  = replaceFrom alts repl (before +:+ u) O rest.
Proof.
  revert before. induction u as [|c u IH]; intros before.
  - rewrite sapp_nil_l, sapp_nil_r.
    destruct rest; reflexivity.
  - rewrite sapp_cons. simpl. rewrite IH, sapp_snoc. reflexivity.
Qed.

Lemma replaceFrom_hit (m before rest : string) :
  m <> EmptyString ->
  firstMatch alts (m +:+ rest) = Some m ->
  replaceFrom alts repl before O (m +:+ rest)
  = getSubstitution m before rest repl +:+ replaceFrom alts repl (before +:+ m) O rest.
Proof.
  intros Hne Hm. destruct m as [|c m]; [congruence|].
  assert (Hd : dropChars (String.length (String c m)) (String c m +:+ rest) = rest)
    by apply dropChars_app.
  rewrite sapp_cons in *. cbn [replaceFrom]. rewrite Hm, Hd.
  f_equal. cbn [String.length]. rewrite Nat.sub_1_r. cbn [Nat.pred].
  rewrite replaceFrom_skip, sapp_snoc. reflexivity.
Qed.

Lemma replaceFrom_miss (c : ascii) (before rest : string) :
  firstMatch alts (String c rest) = None ->
  replaceFrom alts repl before O (String c rest)
  = String c (replaceFrom alts repl (before +:+ String c EmptyString) O rest).
Proof. intros Hm. cbn [replaceFrom]. rewrite Hm. reflexivity. Qed.

End Replace.

Lemma existsb_samePiece_Lit (text : string) (targets : list Piece) :
  List.existsb (samePiece (Lit text)) targets = false.
Proof. induction targets as [|t ts IH]; [reflexivity|]. simpl. exact IH. Qed.

Lemma startsWith_closed (c : ascii) (p rest : string) :
  c <> lbrace -> startsWith (String lbrace p) (String c rest) = false.
Proof.
  intros Hc. cbn [startsWith]. destruct (Ascii.eqb lbrace c) eqn:E; [|reflexivity].
  apply Ascii.eqb_eq in E. congruence.
Qed.

(** Every placeholder is an opening brace followed by brace-free text. *)
Lemma placeholder_shape (p : Piece) :
  (forall text, p <> Lit text) ->
  exists tail, renderPiece p = String lbrace tail /\ noChar lbrace tail = true.
Proof.
  intros Hp. destruct p; [exfalso; eapply Hp; reflexivity|..];
    eexists; (split; [reflexivity|reflexivity]).
Qed.

Section Fill.
Variables (targets : list Piece) (repl : string).
Let alts := List.map renderPiece targets.

Hypothesis repl_plain : noChar dollar repl = true.
Hypothesis closed_at_text :
  forall c rest, c <> lbrace -> firstMatch alts (String c rest) = None.
Hypothesis hit_at_target :
  forall p rest, List.existsb (samePiece p) targets = true ->
    firstMatch alts (renderPiece p +:+ rest) = Some (renderPiece p).
Hypothesis miss_elsewhere :
  forall p rest, (forall text, p <> Lit text) ->
    List.existsb (samePiece p) targets = false ->
    firstMatch alts (renderPiece p +:+ rest) = None.

Lemma replace_text (s before rest : string) :
  noChar lbrace s = true ->
  replaceFrom alts repl before O (s +:+ rest)
  = s +:+ replaceFrom alts repl (before +:+ s) O rest.
Proof.
  revert before. induction s as [|c s IH]; intros before Hs.
  - rewrite sapp_nil_l, sapp_nil_r. reflexivity.
  - simpl in Hs. apply andb_true_iff in Hs as [Hc Hs].
    apply negb_true_iff, Ascii.eqb_neq in Hc.
    rewrite !sapp_cons, replaceFrom_miss by (apply closed_at_text; exact Hc).
    rewrite (IH _ Hs), sapp_snoc. reflexivity.
Qed.

Lemma replace_placeholder_miss (p : Piece) (before rest : string) :
  (forall text, p <> Lit text) ->
  List.existsb (samePiece p) targets = false ->
  replaceFrom alts repl before O (renderPiece p +:+ rest)
  = renderPiece p +:+ replaceFrom alts repl (before +:+ renderPiece p) O rest.
Proof.
  intros Hp Hmiss.
  pose proof (miss_elsewhere p rest Hp Hmiss) as Hnone.
  destruct (placeholder_shape p Hp) as (tail & Hr & Htail).
  rewrite Hr in *. rewrite sapp_cons in *.
  rewrite replaceFrom_miss by exact Hnone.
  rewrite (replace_text tail _ rest Htail), sapp_snoc. reflexivity.
Qed.

Lemma replace_render (ps : list Piece) (before : string) :
  forallb literalOk ps = true ->
  replaceFrom alts repl before O (render ps) = render (List.map (fill targets repl) ps).
Proof.
  revert before. induction ps as [|p ps IH]; intros before Hok; [reflexivity|].
  simpl in Hok. apply andb_true_iff in Hok as [Hp Hps].
  cbn [render List.map]. unfold fill at 1.
  destruct (List.existsb (samePiece p) targets) eqn:E.
  - assert (Hne : renderPiece p <> EmptyString).
    { destruct p; try discriminate. rewrite existsb_samePiece_Lit in E. discriminate. }
    rewrite replaceFrom_hit by (auto using hit_at_target).
    rewrite getSubstitution_plain by exact repl_plain.
    cbn [renderPiece]. rewrite (IH _ Hps). reflexivity.
  - destruct p as [text| | | |].
    + cbn [renderPiece]. simpl in Hp.
      rewrite (replace_text text _ _ Hp), (IH _ Hps). reflexivity.
    + rewrite replace_placeholder_miss, (IH _ Hps) by (congruence || discriminate). reflexivity.
    + rewrite replace_placeholder_miss, (IH _ Hps) by (congruence || discriminate). reflexivity.
    + rewrite replace_placeholder_miss, (IH _ Hps) by (congruence || discriminate). reflexivity.
    + rewrite replace_placeholder_miss, (IH _ Hps) by (congruence || discriminate). reflexivity.
Qed.

Lemma fill_literalOk (ps : list Piece) :
  noChar lbrace repl = true ->
  forallb literalOk ps = true ->
  forallb literalOk (List.map (fill targets repl) ps) = true.
Proof.
  intros Hr. induction ps as [|p ps IH]; intros Hok; [reflexivity|].
  simpl in Hok. apply andb_true_iff in Hok as [Hp Hps].
  cbn [List.map forallb]. rewrite (IH Hps), andb_true_r.
  unfold fill. destruct (List.existsb (samePiece p) targets); [exact Hr|exact Hp].
Qed.

End Fill.

Ltac solve_closed_at_text :=
  let c := fresh "c" in let rest := fresh "rest" in let Hc := fresh "Hc" in
  intros c rest Hc; unfold firstMatch; cbn [List.map renderPiece List.find];
  rewrite ?(startsWith_closed c _ rest Hc); reflexivity.

Ltac solve_at_placeholder :=
  let p := fresh "p" in let rest := fresh "rest" in
  intros p rest; destruct p;
  repeat match goal with
         | |- (forall text, Lit ?t <> Lit text) -> _ =>
             let H := fresh in intros H; exfalso; exact (H t eq_refl)
         | |- _ -> _ => intro
         end;
  try discriminate;
  unfold firstMatch; cbn [renderPiece List.map];
  rewrite !sapp_cons, sapp_nil_l; reflexivity.

Ltac solve_fill targets v Hv Hps :=
  unfold replaceAll;
  apply (replace_render targets v Hv);
  [solve_closed_at_text | solve_at_placeholder | solve_at_placeholder | exact Hps].

Lemma replaceAll_streamUrl (v : string) (ps : list Piece) :
  noChar dollar v = true -> forallb literalOk ps = true ->
  replaceAll ["{streamUrl}"] v (render ps) = render (List.map (fill [StreamUrl] v) ps).
Proof. intros Hv Hps. solve_fill [StreamUrl] v Hv Hps. Qed.

Lemma replaceAll_userAgent_live (v : string) (ps : list Piece) :
  noChar dollar v = true -> forallb literalOk ps = true ->
  replaceAll ["{userAgent}"; "{clientUserAgent}"] v (render ps)
  = render (List.map (fill [UserAgent; ClientUserAgent] v) ps).
Proof. intros Hv Hps. solve_fill [UserAgent; ClientUserAgent] v Hv Hps. Qed.

Lemma replaceAll_userAgent_dvr (v : string) (ps : list Piece) :
  noChar dollar v = true -> forallb literalOk ps = true ->
  replaceAll ["{userAgent}"] v (render ps) = render (List.map (fill [UserAgent] v) ps).
Proof. intros Hv Hps. solve_fill [UserAgent] v Hv Hps. Qed.

Lemma replaceAll_filePath (v : string) (ps : list Piece) :
  noChar dollar v = true -> forallb literalOk ps = true ->
  replaceAll ["{filePath}"] v (render ps) = render (List.map (fill [FilePath] v) ps).
Proof. intros Hv Hps. solve_fill [FilePath] v Hv Hps. Qed.

Lemma plain_parts (s : string) :
  plain s = true -> noChar lbrace s = true /\ noChar dollar s = true.
Proof. unfold plain. intros H. apply andb_true_iff in H. exact H. Qed.

(** The live path: [{streamUrl}], [{userAgent}] and [{clientUserAgent}] are
    filled, [{filePath}] stays. *)
Lemma live_substitution (level streamUrl userAgent : string) (ps : list Piece) :
  forallb literalOk ps = true -> plain streamUrl = true -> plain userAgent = true ->
  liveCommandTemplate level (render ps) streamUrl userAgent
  = ("-v level+" +:+ level +:+ " ") +:+ render (List.map (liveFill streamUrl userAgent) ps).
Proof.
  intros Hps [Hub Hud]%plain_parts [Hab Had]%plain_parts.
  unfold liveCommandTemplate. f_equal.
  rewrite replaceAll_streamUrl by assumption.
  rewrite replaceAll_userAgent_live by (auto using fill_literalOk).
  rewrite List.map_map. f_equal. apply List.map_ext.
  intros p. destruct p; reflexivity.
Qed.

(** The recording path: [{streamUrl}], [{userAgent}] and [{filePath}] are
    filled, [{clientUserAgent}] stays. *)
Lemma dvr_substitution (level streamUrl userAgent filePath : string) (ps : list Piece) :
  forallb literalOk ps = true -> plain streamUrl = true -> plain userAgent = true ->
  plain filePath = true ->
  dvrCommandTemplate level (render ps) streamUrl userAgent filePath
  = ("-v level+" +:+ level +:+ " ")
    +:+ render (List.map (dvrFill streamUrl userAgent filePath) ps).
Proof.
  intros Hps [Hub Hud]%plain_parts [Hab Had]%plain_parts [Hfb Hfd]%plain_parts.
  unfold dvrCommandTemplate. f_equal.
  rewrite replaceAll_streamUrl by assumption.
  rewrite replaceAll_userAgent_dvr by (auto using fill_literalOk).
  rewrite replaceAll_filePath by (auto using fill_literalOk).
  rewrite !List.map_map. f_equal. apply List.map_ext.
  intros p. destruct p; reflexivity.
Qed.

(** ** Tokenization *)

Lemma matchArgs_word (w cur rest : string) :
  ordinary w = true ->
  matchArgsFrom cur false (w +:+ rest) = matchArgsFrom (cur +:+ w) false rest.
Proof.
  revert cur. induction w as [|c w IH]; intros cur Hw.
  - rewrite sapp_nil_l, sapp_nil_r. reflexivity.
  - simpl in Hw. apply andb_true_iff in Hw as [Hc Hw].
    apply andb_true_iff in Hc as [Hs Hq].
    apply negb_true_iff in Hs. apply negb_true_iff in Hq.
    rewrite sapp_cons. cbn [matchArgsFrom]. rewrite Hs, Hq, (IH _ Hw), sapp_snoc.
    reflexivity.
Qed.

Lemma matchArgs_inside (t cur rest : string) :
  hasQuote t = false ->
  matchArgsFrom cur true (t +:+ String dquote rest)
  = matchArgsFrom (cur +:+ t +:+ String dquote EmptyString) false rest.
Proof.
  revert cur. induction t as [|c t IH]; intros cur Ht.
  - rewrite !sapp_nil_l. reflexivity.
  - simpl in Ht. apply orb_false_iff in Ht as [Hc Ht].
    rewrite sapp_cons. cbn [matchArgsFrom]. rewrite Hc. cbn [negb].
    rewrite (IH _ Ht), sapp_snoc. reflexivity.
Qed.

Lemma hasQuote_closing (t rest : string) : hasQuote (t +:+ String dquote rest) = true.
Proof.
  induction t as [|c t IH]; [reflexivity|].
  rewrite sapp_cons. simpl. rewrite IH. apply orb_true_r.
Qed.

Lemma matchArgs_quoted (t cur rest : string) :
  hasQuote t = false ->
  matchArgsFrom cur false (quoted t +:+ rest) = matchArgsFrom (cur +:+ quoted t) false rest.
Proof.
  intros Ht. unfold quoted. rewrite sapp_cons, sapp_assoc, sapp_cons, sapp_nil_l.
  cbn [matchArgsFrom]. change (isQuote dquote) with true. cbn iota.
  rewrite hasQuote_closing, (matchArgs_inside t _ rest Ht), sapp_snoc.
  reflexivity.
Qed.

Lemma matchArgs_arg (a : Arg) (cur rest : string) :
  argOk a = true ->
  matchArgsFrom cur false (renderArg a +:+ rest)
  = matchArgsFrom (cur +:+ renderArg a) false rest.
Proof.
  destruct a as [w|t]; cbn [argOk renderArg]; intros H.
  - apply andb_true_iff in H as [_ Hw]. apply matchArgs_word, Hw.
  - apply negb_true_iff in H. apply matchArgs_quoted, H.
Qed.

Lemma renderArg_nonempty (a : Arg) : argOk a = true -> flush (renderArg a) = [renderArg a].
Proof.
  destruct a as [w|t]; cbn [argOk renderArg]; intros H.
  - apply andb_true_iff in H as [Hne _]. destruct w; [discriminate|reflexivity].
  - reflexivity.
Qed.

Lemma matchArgs_renderArgs (l : list Arg) :
  forallb argOk l = true -> matchArgs (renderArgs l) = List.map renderArg l.
Proof.
  unfold matchArgs. induction l as [|a l IH]; intros Hl; [reflexivity|].
  simpl in Hl. apply andb_true_iff in Hl as [Ha Hl].
  destruct l as [|b l].
  - cbn [renderArgs List.map].
    rewrite <- (sapp_nil_r (renderArg a)) at 1.
    rewrite (matchArgs_arg a _ _ Ha), sapp_nil_l. cbn [matchArgsFrom].
    apply renderArg_nonempty, Ha.
  - change (renderArgs (a :: b :: l)) with (renderArg a +:+ " " +:+ renderArgs (b :: l)).
    rewrite (matchArgs_arg a _ _ Ha), sapp_nil_l, sapp_cons, sapp_nil_l.
    cbn [matchArgsFrom]. change (isQuote " "%char) with false.
    change (isWhiteSpace " "%char) with true. cbn iota.
    rewrite (renderArg_nonempty a Ha), (IH Hl). reflexivity.
Qed.

Lemma stripTrailingQuote_closing (t : string) :
  stripTrailingQuote (t +:+ String dquote EmptyString) = t.
Proof.
  induction t as [|c t IH]; [reflexivity|].
  rewrite sapp_cons. cbn [stripTrailingQuote]. rewrite IH.
  destruct t; reflexivity.
Qed.

Lemma stripTrailingQuote_ordinary (w : string) :
  ordinary w = true -> stripTrailingQuote w = w.
Proof.
  induction w as [|c w IH]; intros Hw; [reflexivity|].
  simpl in Hw. apply andb_true_iff in Hw as [Hc Hw].
  apply andb_true_iff in Hc as [_ Hq]. apply negb_true_iff in Hq.
  cbn [stripTrailingQuote]. destruct w as [|d w].
  - rewrite Hq. reflexivity.
  - rewrite (IH Hw). reflexivity.
Qed.

Lemma stripQuotes_renderArg (a : Arg) :
  argOk a = true -> stripQuotes (renderArg a) = argText a.
Proof.
  destruct a as [w|t]; cbn [argOk renderArg argText]; intros H.
  - apply andb_true_iff in H as [_ Hw]. unfold stripQuotes.
    destruct w as [|c w]; [reflexivity|].
    pose proof Hw as Hw'. simpl in Hw'.
    apply andb_true_iff in Hw' as [Hc _]. apply andb_true_iff in Hc as [_ Hq].
    apply negb_true_iff in Hq. cbn [stripLeadingQuote]. rewrite Hq.
    apply stripTrailingQuote_ordinary, Hw.
  - unfold stripQuotes, quoted. cbn [stripLeadingQuote].
    change (isQuote dquote) with true. cbn iota.
    apply stripTrailingQuote_closing.
Qed.

(** Bare words and quoted texts separated by single spaces come back as
    the words and the texts, quotes removed and inner spaces kept. *)
Lemma splitArgs_renderArgs (l : list Arg) :
  forallb argOk l = true -> splitArgs (renderArgs l) = List.map argText l.
Proof.
  intros Hl. unfold splitArgs. rewrite (matchArgs_renderArgs l Hl), List.map_map.
  induction l as [|a l IH]; [reflexivity|].
  simpl in Hl. apply andb_true_iff in Hl as [Ha Hl].
  cbn [List.map]. rewrite (stripQuotes_renderArg a Ha), (IH Hl). reflexivity.
Qed.



(** The built-in recording profile, resolved for a URL with a space. *)
Example dvr_default_profile_args :
  splitArgs (dvrCommandTemplate "warning" (command dvrTsDefault)
               "http://host/a b.ts" (ua_value defaultUserAgent) "/dvr/1_news.ts")
  = ["-v"; "level+warning"; "-user_agent"; "VLC/3.0.20 (Linux; x86_64)"; "-i";
     "http://host/a b.ts"; "-c"; "copy"; "-f"; "mpegts"; "/dvr/1_news.ts"].
Proof. vm_compute. reflexivity. Qed.

(* ------------------------------------------------------------------ *)
(** ** DVR: rows and windows *)

Section DvrRows.
Import Dvr.

Lemma statusEqb_eq (a b : JobStatus) : statusEqb a b = true <-> a = b.
Proof. destruct a, b; simpl; split; congruence. Qed.

Lemma statusEqb_neq (a b : JobStatus) : statusEqb a b = false <-> a <> b.
Proof. destruct a, b; simpl; split; congruence. Qed.

Lemma window_updateWhere (cond : DvrJob -> bool) (f : DvrJob -> DvrJob) (rows : list DvrJob) :
  (forall r, window (f r) = window r) ->
  List.map window (updateWhere cond f rows) = List.map window rows.
Proof.
  intros Hf. unfold updateWhere. rewrite List.map_map. apply List.map_ext.
  intros r. destruct (cond r); [apply Hf|reflexivity].
Qed.

Lemma cancelActive_jobs (i : Z) (st : State) : dvr_jobs (cancelActive i st) = dvr_jobs st.
Proof. unfold cancelActive. destruct (activeDvrJobs st !! i); reflexivity. Qed.

Lemma startRecording_windows (job : DvrJob) (st : State) :
  List.map window (dvr_jobs (startRecording job st)) = List.map window (dvr_jobs st).
Proof.
  unfold startRecording. destruct (resolve (settings st) (channels st) job);
    cbn [dvr_jobs withJobs];
    apply window_updateWhere; reflexivity.
Qed.

Lemma scheduleDvrJob_windows (now : Z) (job : DvrJob) (st : State) :
  List.map window (dvr_jobs (scheduleDvrJob now job st)) = List.map window (dvr_jobs st).
Proof.
  unfold scheduleDvrJob.
  destruct (endTime job <=? now).
  - destruct (statusEqb (status job) scheduled); cbn [dvr_jobs withJobs];
      rewrite ?window_updateWhere by reflexivity; rewrite cancelActive_jobs; reflexivity.
  - cbn [dvr_jobs withTimers]. destruct (startTime job >? now).
    + cbn [dvr_jobs withActive withTimers]. rewrite cancelActive_jobs. reflexivity.
    + rewrite startRecording_windows, cancelActive_jobs. reflexivity.
Qed.

End DvrRows.

Section DvrSchedule.
Import Dvr.

Lemma postSchedule_cases (now : Z) (sess : Session) (body : ScheduleBody) (st : State) :
  let newJob := newJobOf sess body (settings st) in
  let conflicting := checkForConflicts newJob (userId sess) st in
  (conflicting <> [] /\ postSchedule now sess body st = (st, Conflict newJob conflicting))
  \/ (conflicting = []
      /\ postSchedule now sess body st
         = (scheduleDvrJob now (setId (dvr_seq st + 1) newJob)
              (withSeq (dvr_seq st + 1)
                 (withJobs (fun rows => rows ++ [setId (dvr_seq st + 1) newJob]) st)),
            Created (setId (dvr_seq st + 1) newJob))).
Proof.
  intros newJob conflicting. unfold postSchedule. fold newJob. fold conflicting.
  destruct conflicting as [|c cs]; [right|left]; split; try reflexivity. discriminate.
Qed.



Lemma filter_filter_and {A : Type} (f g : A -> bool) (l : list A) :
  List.filter f (List.filter g l) = List.filter (fun x => g x && f x) l.
Proof.
  induction l as [|x l IH]; [reflexivity|].
  cbn [List.filter]. destruct (g x); cbn [andb List.filter]; rewrite IH; reflexivity.
Qed.

Lemma conflicts_as_specified (newJob : DvrJob) (uid : Z) (rows : list DvrJob) :
  List.filter (overlaps newJob) (scheduledJobsOf uid rows)
  = conflictsWith (startTime newJob) (endTime newJob) uid rows.
Proof.
  unfold scheduledJobsOf, conflictsWith. rewrite filter_filter_and.
  apply List.filter_ext. intros j. unfold overlaps. rewrite andb_assoc. reflexivity.
Qed.

Lemma checkForConflicts_spec (newJob : DvrJob) (uid : Z) (st : State) :
  checkForConflicts newJob uid st
  = let conflicts := conflictsWith (startTime newJob) (endTime newJob) uid (dvr_jobs st) in
    if Z.of_nat (List.length conflicts) >=? maxConcurrent (settings st)
    then conflicts else [].
Proof. unfold checkForConflicts. rewrite conflicts_as_specified. reflexivity. Qed.

(** The exact rule, for any configured limit: a request is rejected when
    the conflicts reach the limit and there is at least one. *)
Lemma postSchedule_rejects_iff (now : Z) (sess : Session) (body : ScheduleBody) (st : State) :
  let newJob := newJobOf sess body (settings st) in
  let conflicts :=
    conflictsWith (startTime newJob) (endTime newJob) (userId sess) (dvr_jobs st) in
  (maxConcurrent (settings st) <= Z.of_nat (List.length conflicts) /\ conflicts <> []
   -> snd (postSchedule now sess body st) = Conflict newJob conflicts)
  /\ (~ (maxConcurrent (settings st) <= Z.of_nat (List.length conflicts) /\ conflicts <> [])
      -> exists job, snd (postSchedule now sess body st) = Created job).
Proof.
  intros newJob conflicts.
  pose proof (checkForConflicts_spec newJob (userId sess) st) as Hc.
  cbv zeta in Hc. fold conflicts in Hc.
  destruct (postSchedule_cases now sess body st) as [[Hne Hr]|[He Hr]];
    fold newJob in Hne || fold newJob in He; fold newJob in Hr; rewrite Hr; cbn [snd].
  - fold newJob in Hc. rewrite Hc in *.
    destruct (Z.of_nat (List.length conflicts) >=? maxConcurrent (settings st)) eqn:E;
      [|congruence].
    split; [reflexivity|]. intros Hn. exfalso. apply Hn. split; [lia|exact Hne].
  - fold newJob in Hc. rewrite Hc in He.
    split; [|eauto].
    intros [Hle Hne].
    destruct (Z.of_nat (List.length conflicts) >=? maxConcurrent (settings st)) eqn:E;
      [congruence|lia].
Qed.

Lemma conflictsWith_In (newStart newEnd uid : Z) (rows : list DvrJob) (j : DvrJob) :
  In j (conflictsWith newStart newEnd uid rows)
  <-> In j rows /\ user_id j = uid /\ status j = scheduled
      /\ newStart < endTime j /\ newEnd > startTime j.
Proof.
  unfold conflictsWith. rewrite List.filter_In, !andb_true_iff, statusEqb_eq.
  rewrite Z.eqb_eq, Z.ltb_lt, Z.gtb_gt. tauto.
Qed.



(** Scheduling the same programme twice: the second request is rejected
    with the first job; a programme starting when the first job ends is
    accepted. *)
Example overlap_rejected_touching_accepted :
  (exists first,
     snd (postSchedule (utc 2024 1 1 19 30 0) viewer newsBody afterNews)
     = Conflict (newJobOf viewer newsBody (settings afterNews)) [first]
     /\ id first = 1)
  /\ (exists job,
        snd (postSchedule (utc 2024 1 1 19 30 0) viewer
               (mkScheduleBody "ch1" "One" "Late show"
                  (utc 2024 1 1 21 3 0) (utc 2024 1 1 22 0 0)) afterNews)
        = Created job
        /\ startTime job = utc 2024 1 1 21 2 0).
Proof.
  split; eexists; (split; [vm_compute; reflexivity|reflexivity]).
Qed.

End DvrSchedule.

(* ------------------------------------------------------------------ *)
(** ** DVR: the exit of a recording process *)

Section DvrExit.
Import Dvr.

Lemma ids_updateWhere (cond : DvrJob -> bool) (f : DvrJob -> DvrJob) (rows : list DvrJob) :
  (forall r, id (f r) = id r) ->
  List.map id (updateWhere cond f rows) = List.map id rows.
Proof.
  intros Hf. unfold updateWhere. rewrite List.map_map. apply List.map_ext.
  intros r. destruct (cond r); [apply Hf|reflexivity].
Qed.

Lemma updateWhere_hasId_In (i : Z) (f : DvrJob -> DvrJob) (rows : list DvrJob) (r : DvrJob) :
  (forall r0, id (f r0) = id r0) ->
  In r (updateWhere (hasId i) f rows) -> id r = i ->
  exists r0, In r0 rows /\ r = f r0.
Proof.
  intros Hf Hin Hid. unfold updateWhere in Hin. apply List.in_map_iff in Hin as (r0 & Hr & Hin).
  exists r0. split; [exact Hin|]. unfold hasId in Hr.
  destruct (id r0 =? i) eqn:E; [congruence|].
  subst r. apply Z.eqb_neq in E. congruence.
Qed.

Lemma codeIs_eq (code : option Z) (n : Z) : codeIs code n = true <-> code = Some n.
Proof.
  destruct code as [c|]; simpl; [|split; discriminate].
  rewrite Z.eqb_eq. split; congruence.
Qed.

Lemma finishedGracefully_iff (out : string) (code : option Z) :
  finishedGracefully out code = true
  <-> code = Some 0 \/ code = Some 255 \/ includes interruptMarker out = true.
Proof.
  unfold finishedGracefully, wasStoppedIntentionally.
  rewrite !orb_true_iff, !codeIs_eq. tauto.
Qed.

Lemma roundSeconds_whole (k : Z) : roundSeconds (1000 * k) = k.
Proof. unfold roundSeconds. symmetry. apply Z.div_unique with (r := 500); lia. Qed.

Lemma finalErrorMessage_shape (code : option Z) (stat : StatResult) (out : string) :
  exists pre tail,
    out = pre +:+ tail
    /\ String.length tail = Nat.min 1000 (String.length out)
    /\ finalErrorMessage code stat out
       = "Recording failed. FFmpeg exit code: " +:+ showCode code +:+ ". " +:+
         match stat with
         | StatError message => "File stat error: " +:+ message
         | StatOk _ => EmptyString
         end +:+ ". FFmpeg output: " +:+ tail.
Proof.
  destruct (sliceLast_suffix 1000 out) as (pre & Hout & Hlen).
  exists pre, (sliceLast 1000 out). repeat split; assumption.
Qed.

(** C3. When a recording process closes, the stop is graceful exactly when
    the exit code is 0 or 255 or the captured stderr contains the
    interrupt marker.  If it is graceful and the output file exists with
    more than 1024 bytes, every row of the job becomes [completed] and one
    [dvr_recordings] row is added whose duration is the job's
    [endTime - startTime] in seconds.  Otherwise every row of the job
    becomes [error], with a message made of the exit code, the stat error
    if there is one, and the last 1000 characters of stderr, and no
    recording row is added.  A file that exists with at most 1024 bytes is
    unlinked; no other file is. *)
Theorem C3_recording_exit (idx : nat) (code : option Z) (stat : StatResult)
    (st : State) (rp : RecProc) :
  procs st !! idx = Some rp -> closed rp = false ->
  let job := rp_job rp in
  let out := ffmpegErrorOutput rp in
  let path := fullFilePath rp in
  let st' := onClose idx code stat st in
  let success := exists size, stat = StatOk size
                              /\ finishedGracefully out code = true /\ 1024 < size in
  (finishedGracefully out code = true
   <-> code = Some 0 \/ code = Some 255 \/ includes interruptMarker out = true)
  /\ List.map id (dvr_jobs st') = List.map id (dvr_jobs st)
  /\ (forall size, stat = StatOk size -> finishedGracefully out code = true -> 1024 < size ->
        (forall r, In r (dvr_jobs st') -> id r = id job -> status r = completed)
        /\ dvr_recordings st'
           = dvr_recordings st
             ++ [mkRecording (id job) (user_id job) (channelName job) (programTitle job)
                   (startTime job) (roundSeconds (endTime job - startTime job)) size path]
        /\ (forall k, endTime job - startTime job = 1000 * k ->
              roundSeconds (endTime job - startTime job) = k)
        /\ effects st' = effects st ++ [Chmod path])
  /\ (~ success ->
        (forall r, In r (dvr_jobs st') -> id r = id job ->
           status r = error /\ errorMessage r = Some (finalErrorMessage code stat out))
        /\ dvr_recordings st' = dvr_recordings st
        /\ exists pre tail,
             out = pre +:+ tail
             /\ String.length tail = Nat.min 1000 (String.length out)
             /\ finalErrorMessage code stat out
                = "Recording failed. FFmpeg exit code: " +:+ showCode code +:+ ". " +:+
                  match stat with
                  | StatError message => "File stat error: " +:+ message
                  | StatOk _ => EmptyString
                  end +:+ ". FFmpeg output: " +:+ tail)
  /\ (forall size, stat = StatOk size -> size <= 1024 ->
        effects st' = effects st ++ [Chmod path; Unlink path])
  /\ effects st'
     = effects st
       ++ match stat with
          | StatError _ => []
          | StatOk size => Chmod path :: (if size <=? 1024 then [Unlink path] else [])
          end.
Proof.
  intros Hp Hc job out path st' success.
  assert (Hst' : st' = onClose idx code stat st) by reflexivity.
  unfold onClose in Hst'. rewrite Hp, Hc in Hst'.
  fold job in Hst'. fold out in Hst'. fold path in Hst'.
  split; [apply finishedGracefully_iff|].
  split.
  { rewrite Hst'. destruct stat as [m|size].
    - cbn [dvr_jobs withJobs]. rewrite ids_updateWhere by reflexivity. reflexivity.
    - destruct (finishedGracefully out code && (size >? 1024)).
      + cbn [dvr_jobs withJobs]. rewrite ids_updateWhere by reflexivity. reflexivity.
      + destruct (size <=? 1024); cbn [dvr_jobs withJobs emit];
          rewrite ids_updateWhere by reflexivity; reflexivity. }
  split.
  { intros size -> Hg Hsize.
    assert (Hb : finishedGracefully out code && (size >? 1024) = true).
    { rewrite Hg. cbn [andb]. apply Z.gtb_gt. lia. }
    rewrite Hb in Hst'. rewrite Hst'. repeat split.
    - intros r Hin Hid. cbn [dvr_jobs withJobs] in Hin.
      apply updateWhere_hasId_In in Hin as (r0 & _ & ->); [reflexivity|reflexivity|exact Hid].
    - intros k Hk. rewrite Hk. apply roundSeconds_whole. }
  split.
  { intros Hns.
    assert (Hjobs : dvr_jobs st'
                    = updateWhere (hasId (id job))
                        (setErrorNoPid (finalErrorMessage code stat out)) (dvr_jobs st)
                    /\ dvr_recordings st' = dvr_recordings st).
    { rewrite Hst'. destruct stat as [m|size]; [split; reflexivity|].
      destruct (finishedGracefully out code && (size >? 1024)) eqn:Hb.
      - exfalso. apply Hns. exists size. apply andb_true_iff in Hb as [Hg Hs].
        apply Z.gtb_gt in Hs. repeat split; [exact Hg|lia].
      - destruct (size <=? 1024); split; reflexivity. }
    destruct Hjobs as [Hj Hr]. split; [|split; [exact Hr|apply finalErrorMessage_shape]].
    intros r Hin Hid. rewrite Hj in Hin.
    apply updateWhere_hasId_In in Hin as (r0 & _ & ->); [split; reflexivity|reflexivity|exact Hid]. }
  split.
  { intros size -> Hsize. rewrite Hst'.
    assert (Hb : finishedGracefully out code && (size >? 1024) = false).
    { apply andb_false_iff. right. rewrite Z.gtb_ltb. apply Z.ltb_ge. lia. }
    rewrite Hb. apply Z.leb_le in Hsize. rewrite Hsize.
    cbn [effects emit withJobs]. rewrite <- List.app_assoc. reflexivity. }
  { rewrite Hst'. destruct stat as [m|size].
    - cbn [effects withJobs]. rewrite List.app_nil_r. reflexivity.
    - destruct (finishedGracefully out code && (size >? 1024)) eqn:Hb.
      + apply andb_true_iff in Hb as [_ Hs]. apply Z.gtb_gt in Hs.
        assert (Hle : (size <=? 1024) = false) by (apply Z.leb_gt; lia).
        rewrite Hle. reflexivity.
      + destruct (size <=? 1024); cbn [effects emit withJobs];
          rewrite <- ?List.app_assoc; reflexivity. }
Qed.

Lemma C3_recording_exit_witness :
  (forall r, In r (dvr_jobs (onClose 0 (Some 255) (StatOk 1025) recordingNews)) ->
     id r = id newsJob -> status r = completed)
  /\ dvr_recordings (onClose 0 (Some 255) (StatOk 1025) recordingNews)
     = dvr_recordings recordingNews
       ++ [mkRecording (id newsJob) (user_id newsJob) (channelName newsJob)
             (programTitle newsJob) (startTime newsJob)
             (roundSeconds (endTime newsJob - startTime newsJob)) 1025
             "/dvr/1_news_at_8.ts"]
  /\ (forall k, endTime newsJob - startTime newsJob = 1000 * k ->
        roundSeconds (endTime newsJob - startTime newsJob) = k)
  /\ effects (onClose 0 (Some 255) (StatOk 1025) recordingNews)
     = effects recordingNews ++ [Chmod "/dvr/1_news_at_8.ts"].
Proof.
  refine (proj1 (proj2 (proj2
            (C3_recording_exit 0 (Some 255) (StatOk 1025) recordingNews newsProc _ _)))
            1025 eq_refl _ _).
  - vm_compute. reflexivity.
  - reflexivity.
  - vm_compute. reflexivity.
  - lia.
Defined.

(** Exit code 255 with 1025 bytes completes the job with a duration of
    63 minutes; exit code 0 with exactly 1024 bytes is an error and the
    file is unlinked. *)
Example exit_threshold :
  (let st := onClose 0 (Some 255) (StatOk 1025) recordingNews in
   List.map status (dvr_jobs st) = [completed]
   /\ List.map durationSeconds (dvr_recordings st) = [3780])
  /\ (let st := onClose 0 (Some 0) (StatOk 1024) recordingNews in
      List.map status (dvr_jobs st) = [error]
      /\ dvr_recordings st = []
      /\ List.last (effects st) (Warn EmptyString) = Unlink "/dvr/1_news_at_8.ts").
Proof. vm_compute. repeat split; reflexivity. Qed.

End DvrExit.

(* ------------------------------------------------------------------ *)
(** ** DVR: what each handler leaves alone *)

Section DvrFrames.
Import Dvr.

Lemma cancelTimer_other (t0 t : nat) (ts : list Timer) :
  t <> t0 -> cancelTimer t0 ts !! t = ts !! t.
Proof.
  intros Hne. unfold cancelTimer. destruct (ts !! t0) as [tm|]; [|reflexivity].
  destruct (timerState tm); try reflexivity.
  apply list_lookup_insert_ne. congruence.
Qed.

Lemma cancelTimer_keeps (t0 t : nat) (ts : list Timer) (tm : Timer) :
  ts !! t = Some tm ->
  exists tm', cancelTimer t0 ts !! t = Some tm'
              /\ action tm' = action tm /\ fireAt tm' = fireAt tm.
Proof.
  intros Ht. destruct (decide (t = t0)) as [->|Hne].
  - unfold cancelTimer. rewrite Ht. destruct (timerState tm) eqn:E.
    + exists (mkTimer (fireAt tm) (action tm) Canceled). split; [|split; reflexivity].
      apply list_lookup_insert_eq. eapply lookup_lt_Some, Ht.
    + eauto.
    + eauto.
  - exists tm. rewrite cancelTimer_other by exact Hne. auto.
Qed.

Lemma cancelTimer_length (t0 : nat) (ts : list Timer) :
  List.length (cancelTimer t0 ts) = List.length ts.
Proof.
  unfold cancelTimer. destruct (ts !! t0) as [tm|]; [|reflexivity].
  destruct (timerState tm); try reflexivity. apply length_insert.
Qed.

(** A timer that is not a start timer survives the cancellation of any
    timer found in [activeDvrJobs]. *)
Lemma cancelActive_keeps_stop (i : Z) (st : State) (t : nat) (tm : Timer) :
  activeStartsOnly st ->
  timers st !! t = Some tm -> ~ isStartTimer tm ->
  timers (cancelActive i st) !! t = Some tm.
Proof.
  intros Hinv Ht Hstop. unfold cancelActive.
  destruct (activeDvrJobs st !! i) as [t0|] eqn:E; [|exact Ht].
  cbn [timers withActive withTimers].
  rewrite cancelTimer_other; [exact Ht|].
  intros ->. destruct (Hinv i t0 E) as (tm0 & Ht0 & Hs). congruence.
Qed.

Lemma cancelActive_timers_keep (i : Z) (st : State) (t : nat) (tm : Timer) :
  timers st !! t = Some tm ->
  exists tm', timers (cancelActive i st) !! t = Some tm'
              /\ action tm' = action tm /\ fireAt tm' = fireAt tm.
Proof.
  intros Ht. unfold cancelActive.
  destruct (activeDvrJobs st !! i) as [t0|]; [|eauto].
  cbn [timers withActive withTimers]. apply cancelTimer_keeps, Ht.
Qed.

Lemma cancelActive_length (i : Z) (st : State) :
  List.length (timers (cancelActive i st)) = List.length (timers st).
Proof.
  unfold cancelActive. destruct (activeDvrJobs st !! i) as [t0|]; [|reflexivity].
  cbn [timers withActive withTimers]. apply cancelTimer_length.
Qed.

Lemma cancelActive_active (i k : Z) (st : State) :
  activeDvrJobs (cancelActive i st) !! k
  = if decide (i = k) then None else activeDvrJobs st !! k.
Proof.
  unfold cancelActive. destruct (activeDvrJobs st !! i) as [t0|] eqn:E.
  - cbn [activeDvrJobs withActive withTimers]. rewrite lookup_delete. reflexivity.
  - destruct (decide (i = k)) as [<-|]; [exact E|reflexivity].
Qed.

Lemma cancelActive_idle (i : Z) (st : State) :
  activeDvrJobs st !! i = None -> cancelActive i st = st.
Proof. intros E. unfold cancelActive. rewrite E. reflexivity. Qed.

Lemma cancelActive_rest (i : Z) (st : State) :
  settings (cancelActive i st) = settings st
  /\ channels (cancelActive i st) = channels st
  /\ runningFFmpegProcesses (cancelActive i st) = runningFFmpegProcesses st
  /\ procs (cancelActive i st) = procs st
  /\ effects (cancelActive i st) = effects st
  /\ os_next_pid (cancelActive i st) = os_next_pid st
  /\ dvr_seq (cancelActive i st) = dvr_seq st.
Proof.
  unfold cancelActive. destruct (activeDvrJobs st !! i); repeat split; reflexivity.
Qed.

Lemma startRecording_rest (job : DvrJob) (st : State) :
  timers (startRecording job st) = timers st
  /\ activeDvrJobs (startRecording job st) = activeDvrJobs st
  /\ settings (startRecording job st) = settings st
  /\ channels (startRecording job st) = channels st
  /\ dvr_seq (startRecording job st) = dvr_seq st.
Proof.
  unfold startRecording. destruct (resolve (settings st) (channels st) job);
    repeat split; reflexivity.
Qed.

Lemma stopRecording_rest (i : Z) (st : State) :
  timers (stopRecording i st) = timers st
  /\ activeDvrJobs (stopRecording i st) = activeDvrJobs st
  /\ dvr_jobs (stopRecording i st) = dvr_jobs st
  /\ runningFFmpegProcesses (stopRecording i st) = runningFFmpegProcesses st
  /\ settings (stopRecording i st) = settings st
  /\ channels (stopRecording i st) = channels st
  /\ procs (stopRecording i st) = procs st
  /\ dvr_seq (stopRecording i st) = dvr_seq st.
Proof.
  unfold stopRecording, processKill.
  destruct (runningFFmpegProcesses st !! i) as [pid|]; [|repeat split; reflexivity].
  destruct (pid =? 0); [repeat split; reflexivity|].
  destruct (negb (bool_decide (pid ∈ os_running st))); repeat split; reflexivity.
Qed.

(** [stopRecording] without a tracked process only warns; with one it
    sends [SIGINT] first. *)
Lemma stopRecording_effects (i : Z) (st : State) :
  match runningFFmpegProcesses st !! i with
  | None =>
      effects (stopRecording i st)
      = effects st ++ [Warn ("[DVR] Cannot stop job " +:+ showZ i
                             +:+ ": No running ffmpeg process found.")]
  | Some pid =>
      pid <> 0 ->
      exists more, effects (stopRecording i st) = effects st ++ Kill pid SIGINT :: more
                   /\ (more = [] \/ more = [Kill pid SIGKILL])
  end.
Proof.
  unfold stopRecording, processKill.
  destruct (runningFFmpegProcesses st !! i) as [pid|]; [|reflexivity].
  intros Hpid. apply Z.eqb_neq in Hpid. rewrite Hpid.
  destruct (negb (bool_decide (pid ∈ os_running st))).
  - exists [Kill pid SIGKILL]. split; [|right; reflexivity].
    cbn [fst effects emit]. rewrite <- List.app_assoc. reflexivity.
  - exists []. split; [reflexivity|left; reflexivity].
Qed.

End DvrFrames.

(* ------------------------------------------------------------------ *)
(** ** DVR: only start timers are ever stored, stop timers stay armed *)

Section DvrTimers.
Import Dvr.

Lemma inv_mono (st st' : State) :
  activeStartsOnly st ->
  (forall t tm, timers st !! t = Some tm ->
     exists tm', timers st' !! t = Some tm' /\ action tm' = action tm) ->
  (forall k t, activeDvrJobs st' !! k = Some t ->
     activeDvrJobs st !! k = Some t
     \/ exists tm, timers st' !! t = Some tm /\ isStartTimer tm) ->
  activeStartsOnly st'.
Proof.
  intros Hinv Hts Hact k t Hk. destruct (Hact k t Hk) as [Hold|Hnew]; [|exact Hnew].
  destruct (Hinv k t Hold) as (tm & Ht & job & Hjob).
  destruct (Hts t tm Ht) as (tm' & Ht' & Ha).
  exists tm'. split; [exact Ht'|]. exists job. congruence.
Qed.

Lemma inv_same (st st' : State) :
  timers st' = timers st -> activeDvrJobs st' = activeDvrJobs st ->
  activeStartsOnly st -> activeStartsOnly st'.
Proof. intros Ht Ha Hinv k t. rewrite Ha, Ht. apply Hinv. Qed.

Lemma cancelActive_inv (i : Z) (st : State) :
  activeStartsOnly st -> activeStartsOnly (cancelActive i st).
Proof.
  intros Hinv. apply (inv_mono st); [exact Hinv| |].
  - intros t tm Ht. destruct (cancelActive_timers_keep i st t tm Ht) as (tm' & ? & ? & ?).
    eauto.
  - intros k t. rewrite cancelActive_active. destruct (decide (i = k)); [discriminate|auto].
Qed.

Lemma scheduleDvrJob_inv (now : Z) (job : DvrJob) (st : State) :
  activeStartsOnly st -> activeStartsOnly (scheduleDvrJob now job st).
Proof.
  intros Hinv.
  pose proof (cancelActive_inv (id job) st Hinv) as Hc.
  unfold scheduleDvrJob. set (st1 := cancelActive (id job) st) in *.
  destruct (endTime job <=? now).
  - destruct (statusEqb (status job) scheduled); [|exact Hc].
    apply (inv_same st1); [reflexivity|reflexivity|exact Hc].
  - destruct (startTime job >? now).
    + apply (inv_mono st1); [exact Hc| |].
      * intros t tm Ht. exists tm. split; [|reflexivity].
        cbn [timers withTimers withActive]. rewrite <- List.app_assoc.
        apply lookup_app_l_Some, Ht.
      * intros k t. cbn [activeDvrJobs timers withTimers withActive].
        rewrite lookup_insert. destruct (decide (id job = k)) as [_|_]; [|auto].
        intros [= <-]. right. eexists. split.
        -- rewrite <- List.app_assoc. apply list_lookup_middle. reflexivity.
        -- exists job. reflexivity.
    + destruct (startRecording_rest job st1) as (Ht & Ha & _).
      apply (inv_mono st1); [exact Hc| |].
      * intros t tm Htm. exists tm. split; [|reflexivity].
        cbn [timers withTimers]. rewrite Ht. apply lookup_app_l_Some, Htm.
      * intros k t. cbn [activeDvrJobs withTimers]. rewrite Ha. auto.
Qed.

Lemma active_in_range (st : State) (k : Z) (t : nat) :
  activeStartsOnly st -> activeDvrJobs st !! k = Some t ->
  (t < List.length (timers st))%nat.
Proof.
  intros Hinv Hk. destruct (Hinv k t Hk) as (tm & Ht & _).
  eapply lookup_lt_Some, Ht.
Qed.

Lemma scheduleDvrJob_keeps_stop (now : Z) (job : DvrJob) (st : State) (t : nat) (tm : Timer) :
  activeStartsOnly st ->
  timers st !! t = Some tm -> ~ isStartTimer tm ->
  timers (scheduleDvrJob now job st) !! t = Some tm.
Proof.
  intros Hinv Ht Hstop.
  pose proof (cancelActive_keeps_stop (id job) st t tm Hinv Ht Hstop) as Hc.
  unfold scheduleDvrJob. set (st1 := cancelActive (id job) st) in *.
  destruct (endTime job <=? now).
  - destruct (statusEqb (status job) scheduled); exact Hc.
  - destruct (startTime job >? now).
    + cbn [timers withTimers withActive]. rewrite <- List.app_assoc.
      apply lookup_app_l_Some, Hc.
    + cbn [timers withTimers].
      destruct (startRecording_rest job st1) as (-> & _).
      apply lookup_app_l_Some, Hc.
Qed.

(** Arming a job whose end is ahead appends the stop timer last, and
    stores nothing but (at most) the start timer under the job id. *)
Lemma scheduleDvrJob_arms (now : Z) (job : DvrJob) (st : State) :
  activeStartsOnly st ->
  now < endTime job ->
  let st' := scheduleDvrJob now job st in
  let t := (List.length (timers st') - 1)%nat in
  timers st' !! t = Some (mkTimer (endTime job) (StopRecordingOf (id job)) Pending)
  /\ (forall k, activeDvrJobs st' !! k <> Some t)
  /\ (if startTime job >? now
      then exists t0, activeDvrJobs st' !! id job = Some t0
           /\ timers st' !! t0
              = Some (mkTimer (startTime job) (StartRecordingOf job) Pending)
      else activeDvrJobs st' !! id job = None).
Proof.
  intros Hinv Hend st' t. subst st' t. unfold scheduleDvrJob.
  assert (He : (endTime job <=? now) = false) by (apply Z.leb_gt; exact Hend).
  rewrite He. set (st1 := cancelActive (id job) st).
  pose proof (cancelActive_inv (id job) st Hinv) as Hinv1. fold st1 in Hinv1.
  pose proof (cancelActive_active (id job) (id job) st) as Hown. fold st1 in Hown.
  destruct (decide (id job = id job)) as [_|]; [|congruence].
  destruct (startTime job >? now) eqn:Hs.
  - cbn [timers activeDvrJobs withTimers withActive].
    rewrite !length_app. cbn [List.length].
    replace (List.length (timers st1) + 1 + 1 - 1)%nat
      with (S (List.length (timers st1))) by lia.
    split; [|split].
    + rewrite <- List.app_assoc. cbn [app].
      rewrite lookup_app_r by lia.
      replace (S (List.length (timers st1)) - List.length (timers st1))%nat with 1%nat by lia.
      reflexivity.
    + intros k. rewrite lookup_insert. destruct (decide (id job = k)) as [_|_].
      * intros [= E]. lia.
      * intros Hk. apply (active_in_range st1 k _ Hinv1) in Hk. lia.
    + exists (List.length (timers st1)). rewrite lookup_insert_eq. split; [reflexivity|].
      rewrite <- List.app_assoc. apply list_lookup_middle. reflexivity.
  - destruct (startRecording_rest job st1) as (Ht & Ha & _).
    cbn [timers activeDvrJobs withTimers]. rewrite Ht, Ha, length_app.
    cbn [List.length].
    replace (List.length (timers st1) + 1 - 1)%nat with (List.length (timers st1)) by lia.
    split; [|split].
    + apply list_lookup_middle. reflexivity.
    + intros k Hk. apply (active_in_range st1 k _ Hinv1) in Hk. lia.
    + exact Hown.
Qed.

(** The events that neither arm, cancel nor fire a timer. *)
Lemma step_timers_untouched (now : Z) (ev : Event) (st : State) :
  match ev with
  | PostStop _ _ | DeleteHistory _ _ | ProcStderr _ _ | ProcExits _
  | ProcClose _ _ _ | ProcError _ _ | SettingsChange _ _ => True
  | _ => False
  end ->
  timers (step now ev st) = timers st
  /\ activeDvrJobs (step now ev st) = activeDvrJobs st.
Proof.
  destruct ev as [sess body|sess i|sess i|sess i a b|sess i|t|p data|p|p code stat|p m|s chs];
    intros H; try contradiction; cbn [step].
  - unfold postStop. destruct (stopRecording_rest i st) as (Ht & Ha & _).
    destruct (changes _ _ =? 0)%nat; cbn [fst timers activeDvrJobs withJobs]; auto.
  - unfold deleteHistory. destruct (List.find _ _) as [job|]; [|split; reflexivity].
    destruct (isTerminal (status job)); split; reflexivity.
  - unfold onStderr. destruct (procs st !! p) as [rp|]; [|split; reflexivity].
    destruct (closed rp); split; reflexivity.
  - unfold osExit. destruct (procs st !! p) as [rp|]; split; reflexivity.
  - unfold onClose. destruct (procs st !! p) as [rp|]; [|split; reflexivity].
    destruct (closed rp); [split; reflexivity|].
    destruct stat as [m|size]; [split; reflexivity|].
    destruct (finishedGracefully _ _ && _); [split; reflexivity|].
    destruct (size <=? 1024); split; reflexivity.
  - unfold onError. destruct (procs st !! p) as [rp|]; split; reflexivity.
  - split; reflexivity.
Qed.

Lemma fireTimer_timers (now : Z) (t : nat) (st : State) :
  activeDvrJobs (fireTimer now t st) = activeDvrJobs st
  /\ (timers (fireTimer now t st) = timers st
      \/ exists tm, timers st !! t = Some tm
                    /\ timers (fireTimer now t st)
                       = <[t := mkTimer (fireAt tm) (action tm) Fired]> (timers st)).
Proof.
  unfold fireTimer. destruct (timers st !! t) as [tm|] eqn:Ht; [|auto].
  destruct (timerState tm); auto.
  destruct (fireAt tm <=? now); [|auto].
  destruct (action tm) as [job|i] eqn:Ea.
  - destruct (startRecording_rest job
                (withTimers (fun ts => <[t := mkTimer (fireAt tm) (StartRecordingOf job) Fired]> ts) st))
      as (-> & -> & _). split; [reflexivity|]. right. exists tm. rewrite Ea.
    split; reflexivity.
  - destruct (stopRecording_rest i
                (withTimers (fun ts => <[t := mkTimer (fireAt tm) (StopRecordingOf i) Fired]> ts) st))
      as (-> & -> & _). split; [reflexivity|]. right. exists tm. rewrite Ea.
    split; reflexivity.
Qed.

Lemma step_inv (now : Z) (ev : Event) (st : State) :
  activeStartsOnly st -> activeStartsOnly (step now ev st).
Proof.
  intros Hinv.
  destruct ev as [sess body|sess i|sess i|sess i a b|sess i|t|p data|p|p code stat|p m|s chs];
    try (match goal with
         | |- activeStartsOnly (step _ ?e _) =>
             destruct (step_timers_untouched now e st I) as [Ht Ha]
         end; apply (inv_same st); assumption); cbn [step].
  - destruct (postSchedule_cases now sess body st) as [[_ ->]|[_ ->]]; [exact Hinv|].
    cbn [fst]. apply scheduleDvrJob_inv. apply (inv_same st); auto.
  - unfold deleteJob. pose proof (cancelActive_inv i st Hinv) as Hc.
    destruct (changes _ _ =? 0)%nat; cbn [fst]; [exact Hc|].
    apply (inv_same (cancelActive i st)); auto.
  - unfold putJob. destruct a as [a|], b as [b|]; try exact Hinv.
    destruct (List.find _ _) as [job|]; [|exact Hinv].
    destruct (negb _); [exact Hinv|]. cbn [fst].
    apply scheduleDvrJob_inv. apply (inv_same st); auto.
  - destruct (fireTimer_timers now t st) as [Ha [Ht|(tm & Htm & Ht)]].
    + apply (inv_same st); assumption.
    + apply (inv_mono st); [exact Hinv| |].
      * intros t' tm' Ht'. rewrite Ht. destruct (decide (t' = t)) as [->|Hne].
        -- eexists. split; [apply list_lookup_insert_eq; eapply lookup_lt_Some, Htm|].
           cbn [action]. congruence.
        -- exists tm'. split; [|reflexivity].
           rewrite list_lookup_insert_ne by congruence. exact Ht'.
      * intros k t'. rewrite Ha. auto.
Qed.

(** A pending stop timer is still pending after any event other than its
    own firing. *)
Lemma step_keeps_stop (now : Z) (ev : Event) (st : State) (t : nat) (tm : Timer) :
  activeStartsOnly st ->
  timers st !! t = Some tm -> ~ isStartTimer tm ->
  ev <> TimerFires t ->
  timers (step now ev st) !! t = Some tm.
Proof.
  intros Hinv Ht Hstop Hev.
  destruct ev as [sess body|sess i|sess i|sess i a b|sess i|t'|p data|p|p code stat|p m|s chs];
    try (match goal with
         | |- timers (step _ ?e _) !! _ = _ =>
             destruct (step_timers_untouched now e st I) as [-> _]
         end; exact Ht); cbn [step].
  - destruct (postSchedule_cases now sess body st) as [[_ ->]|[_ ->]]; [exact Ht|].
    cbn [fst]. apply scheduleDvrJob_keeps_stop; [|exact Ht|exact Hstop].
    apply (inv_same st); auto.
  - unfold deleteJob.
    pose proof (cancelActive_keeps_stop i st t tm Hinv Ht Hstop) as Hc.
    destruct (changes _ _ =? 0)%nat; exact Hc.
  - unfold putJob. destruct a as [a|], b as [b|]; try exact Ht.
    destruct (List.find _ _) as [job|]; [|exact Ht].
    destruct (negb _); [exact Ht|]. cbn [fst].
    apply scheduleDvrJob_keeps_stop; [|exact Ht|exact Hstop].
    apply (inv_same st); auto.
  - destruct (fireTimer_timers now t' st) as [_ [->|(tm' & _ & ->)]]; [exact Ht|].
    rewrite list_lookup_insert_ne by congruence. exact Ht.
Qed.

Lemma run_inv (evs : list (Z * Event)) (st : State) :
  activeStartsOnly st -> activeStartsOnly (run evs st).
Proof.
  revert st. induction evs as [|[now ev] evs IH]; intros st Hinv; [exact Hinv|].
  cbn [run]. apply IH, step_inv, Hinv.
Qed.

Lemma run_keeps_stop (evs : list (Z * Event)) (st : State) (t : nat) (tm : Timer) :
  activeStartsOnly st ->
  timers st !! t = Some tm -> ~ isStartTimer tm ->
  Forall (fun e => snd e <> TimerFires t) evs ->
  timers (run evs st) !! t = Some tm.
Proof.
  revert st. induction evs as [|[now ev] evs IH]; intros st Hinv Ht Hstop Hevs; [exact Ht|].
  apply Forall_cons in Hevs as [Hev Hevs]. cbn [run].
  apply IH; [apply step_inv, Hinv| |exact Hstop|exact Hevs].
  apply step_keeps_stop; assumption.
Qed.

Lemma boot_inv (s : Settings) (chs : list Channel) (db : Database) (firstPid : Z) :
  activeStartsOnly (boot s chs db firstPid).
Proof. intros k t. cbn [boot activeDvrJobs]. rewrite lookup_empty. discriminate. Qed.

Lemma fold_schedule_inv (now : Z) (jobs : list DvrJob) (st : State) :
  activeStartsOnly st ->
  activeStartsOnly (List.fold_left (fun acc job => scheduleDvrJob now job acc) jobs st).
Proof.
  revert st. induction jobs as [|j jobs IH]; intros st Hinv; [exact Hinv|].
  cbn [List.fold_left]. apply IH, scheduleDvrJob_inv, Hinv.
Qed.

Lemma startup_inv (now : Z) (s : Settings) (chs : list Channel) (db : Database)
    (firstPid : Z) :
  activeStartsOnly (startup now s chs db firstPid).
Proof.
  unfold startup, loadJobs. apply fold_schedule_inv.
  apply (inv_same (boot s chs db firstPid)); [reflexivity|reflexivity|apply boot_inv].
Qed.

Lemma fireTimer_stop (now : Z) (t : nat) (st : State) (e i : Z) :
  timers st !! t = Some (mkTimer e (StopRecordingOf i) Pending) ->
  fireTimer now t st
  = if e <=? now
    then stopRecording i
           (withTimers (fun ts => <[t := mkTimer e (StopRecordingOf i) Fired]> ts) st)
    else st.
Proof. intros Ht. unfold fireTimer. rewrite Ht. reflexivity. Qed.

(** C10. Arming a job whose end is ahead appends a stop timer for its
    [endTime]; [activeDvrJobs] never holds that timer: under the job id it
    holds the start timer when the start is ahead and nothing otherwise,
    and in any later state it holds start timers only.  Whatever happens next, short of the stop
    timer itself firing (cancelling the job, rescheduling it, anything
    else), the timer stays pending for the original [endTime].  Once that
    instant has come, firing it runs [stopRecording] for the job id: a
    warning and no signal when no process is tracked for the id, a
    [SIGINT] to the tracked process otherwise. *)
Theorem C10_stop_timer_survives
    (now0 : Z) (s : Settings) (chs : list Channel) (db : Database) (firstPid : Z)
    (earlier : list (Z * Event)) (now : Z) (job : DvrJob) (later : list (Z * Event)) :
  now < endTime job ->
  let st0 := run earlier (startup now0 s chs db firstPid) in
  let st1 := scheduleDvrJob now job st0 in
  let t := (List.length (timers st1) - 1)%nat in
  Forall (fun e => snd e <> TimerFires t) later ->
  let st2 := run later st1 in
  timers st1 !! t = Some (mkTimer (endTime job) (StopRecordingOf (id job)) Pending)
  /\ (forall k, activeDvrJobs st1 !! k <> Some t)
  /\ (if startTime job >? now
      then exists t0, activeDvrJobs st1 !! id job = Some t0
                      /\ timers st1 !! t0
                         = Some (mkTimer (startTime job) (StartRecordingOf job) Pending)
      else activeDvrJobs st1 !! id job = None)
  /\ activeStartsOnly st2
  /\ timers st2 !! t = Some (mkTimer (endTime job) (StopRecordingOf (id job)) Pending)
  /\ (forall now2, endTime job <= now2 ->
        fireTimer now2 t st2
        = stopRecording (id job)
            (withTimers
               (fun ts => <[t := mkTimer (endTime job) (StopRecordingOf (id job)) Fired]> ts)
               st2))
  /\ (forall now2, now2 < endTime job -> fireTimer now2 t st2 = st2)
  /\ (forall st,
        match runningFFmpegProcesses st !! id job with
        | None =>
            effects (stopRecording (id job) st)
            = effects st ++ [Warn ("[DVR] Cannot stop job " +:+ showZ (id job)
                                   +:+ ": No running ffmpeg process found.")]
        | Some pid =>
            pid <> 0 ->
            exists more,
              effects (stopRecording (id job) st) = effects st ++ Kill pid SIGINT :: more
              /\ (more = [] \/ more = [Kill pid SIGKILL])
        end).
Proof.
  intros Hend st0 st1 t Hlater st2.
  assert (Hinv0 : activeStartsOnly st0) by apply run_inv, startup_inv.
  assert (Hinv1 : activeStartsOnly st1) by apply scheduleDvrJob_inv, Hinv0.
  destruct (scheduleDvrJob_arms now job st0 Hinv0 Hend) as (Harmed & Hfree & Hstored).
  fold st1 in Harmed, Hfree, Hstored. fold t in Harmed, Hfree.
  assert (Hstop : ~ isStartTimer (mkTimer (endTime job) (StopRecordingOf (id job)) Pending)).
  { intros [j Hj]. discriminate. }
  assert (Hkept : timers st2 !! t
                  = Some (mkTimer (endTime job) (StopRecordingOf (id job)) Pending)).
  { apply run_keeps_stop; assumption. }
  split; [exact Harmed|]. split; [exact Hfree|]. split; [exact Hstored|].
  split; [apply run_inv, Hinv1|]. split; [exact Hkept|].
  split; [|split].
  - intros now2 H2. rewrite (fireTimer_stop now2 t st2 _ _ Hkept).
    apply Z.leb_le in H2. rewrite H2. reflexivity.
  - intros now2 H2. rewrite (fireTimer_stop now2 t st2 _ _ Hkept).
    apply Z.leb_gt in H2. rewrite H2. reflexivity.
  - intros st. apply stopRecording_effects.
Qed.

Lemma C10_stop_timer_survives_witness :
  timers (run [(utc 2024 1 1 19 30 0,
                PutJob viewer 1 (Some (utc 2024 1 1 22 0 0)) (Some (utc 2024 1 1 23 0 0)));
               (utc 2024 1 1 19 40 0, DeleteJob viewer 1)]
            (scheduleDvrJob (utc 2024 1 1 19 10 0) newsJob
               (run [(utc 2024 1 1 19 0 0, PostSchedule viewer newsBody)]
                  (startup 0 defaultSettings [channelOne] emptyDb 5000))))
    !! (List.length
          (timers (scheduleDvrJob (utc 2024 1 1 19 10 0) newsJob
                     (run [(utc 2024 1 1 19 0 0, PostSchedule viewer newsBody)]
                        (startup 0 defaultSettings [channelOne] emptyDb 5000)))) - 1)%nat
  = Some (mkTimer (endTime newsJob) (StopRecordingOf (id newsJob)) Pending).
Proof.
  refine (proj1 (proj2 (proj2 (proj2 (proj2
            (C10_stop_timer_survives 0 defaultSettings [channelOne] emptyDb 5000
               [(utc 2024 1 1 19 0 0, PostSchedule viewer newsBody)]
               (utc 2024 1 1 19 10 0) newsJob
               [(utc 2024 1 1 19 30 0,
                 PutJob viewer 1 (Some (utc 2024 1 1 22 0 0)) (Some (utc 2024 1 1 23 0 0)));
                (utc 2024 1 1 19 40 0, DeleteJob viewer 1)]
               _ _)))))).
  - vm_compute. reflexivity.
  - repeat constructor; discriminate.
Defined.

(** A job is scheduled and then moved to 22:00-23:00: the stop timer of
    the first window is still pending next to the new pair. *)
Example stop_timer_after_reschedule :
  List.map (fun tm => (fireAt tm, timerState tm))
    (timers (fst (putJob (utc 2024 1 1 19 30 0) viewer 1
                    (Some (utc 2024 1 1 22 0 0)) (Some (utc 2024 1 1 23 0 0)) afterNews)))
  = [(utc 2024 1 1 19 59 0, Canceled); (utc 2024 1 1 21 2 0, Pending);
     (utc 2024 1 1 22 0 0, Pending); (utc 2024 1 1 23 0 0, Pending)].
Proof. vm_compute. reflexivity. Qed.

(** A job is scheduled, cancelled, and its stop timer still fires at the
    original end: with nothing recording it only warns.  When the job is
    recording at that instant, the process receives [SIGINT]. *)
Example stop_timer_after_cancel :
  let cancelled := fst (deleteJob viewer 1 afterNews) in
  List.map timerState (timers cancelled) = [Canceled; Pending]
  /\ effects (fireTimer (utc 2024 1 1 21 2 0) 1 cancelled)
     = [Warn "[DVR] Cannot stop job 1: No running ffmpeg process found."]
  /\ effects (fireTimer (utc 2024 1 1 21 2 0) 1 (fst (deleteJob viewer 1 recordingNews)))
     = effects recordingNews ++ [Kill 5000 SIGINT].
Proof. vm_compute. repeat split; reflexivity. Qed.

End DvrTimers.

(* ------------------------------------------------------------------ *)
(** ** DVR: startup recovery *)

Section DvrRecovery.
Import Dvr.

Lemma getJob_id (i : Z) (rows : list DvrJob) (r : DvrJob) :
  getJob i rows = Some r -> id r = i /\ In r rows.
Proof.
  unfold getJob. intros H. apply List.find_some in H as [Hin Hid].
  unfold hasId in Hid. apply Z.eqb_eq in Hid. auto.
Qed.

Lemma getJob_map (i : Z) (g : DvrJob -> DvrJob) (rows : list DvrJob) :
  (forall r, id (g r) = id r) ->
  getJob i (List.map g rows) = g <$> getJob i rows.
Proof.
  intros Hg. unfold getJob. induction rows as [|r rows IH]; [reflexivity|].
  cbn [List.map List.find]. unfold hasId at 1 3. rewrite Hg.
  destruct (id r =? i); [reflexivity|exact IH].
Qed.

Lemma getJob_updateWhere (i : Z) (cond : DvrJob -> bool) (f : DvrJob -> DvrJob)
    (rows : list DvrJob) :
  (forall r, id (f r) = id r) ->
  getJob i (updateWhere cond f rows)
  = (fun r => if cond r then f r else r) <$> getJob i rows.
Proof.
  intros Hf. unfold updateWhere. apply getJob_map.
  intros r. destruct (cond r); [apply Hf|reflexivity].
Qed.

Lemma getJob_updateWhere_other (i k : Z) (f : DvrJob -> DvrJob) (rows : list DvrJob) :
  i <> k -> (forall r, id (f r) = id r) ->
  getJob i (updateWhere (hasId k) f rows) = getJob i rows.
Proof.
  intros Hne Hf. rewrite getJob_updateWhere by exact Hf.
  destruct (getJob i rows) as [r|] eqn:E; [|reflexivity].
  apply getJob_id in E as [Hid _]. cbn [fmap option_fmap option_map].
  unfold hasId. destruct (id r =? k) eqn:Ek; [|reflexivity].
  apply Z.eqb_eq in Ek. congruence.
Qed.

Lemma getJob_updateWhere_same (i : Z) (f : DvrJob -> DvrJob) (rows : list DvrJob) :
  (forall r, id (f r) = id r) ->
  getJob i (updateWhere (hasId i) f rows) = f <$> getJob i rows.
Proof.
  intros Hf. rewrite getJob_updateWhere by exact Hf.
  destruct (getJob i rows) as [r|] eqn:E; [|reflexivity].
  apply getJob_id in E as [Hid _]. cbn [fmap option_fmap option_map].
  unfold hasId. rewrite Hid, Z.eqb_refl. reflexivity.
Qed.

Lemma getJob_In_NoDup (rows : list DvrJob) (r : DvrJob) :
  NoDup (List.map id rows) -> In r rows -> getJob (id r) rows = Some r.
Proof.
  unfold getJob. induction rows as [|x rows IH]; intros Hnd Hin; [contradiction|].
  cbn [List.map] in Hnd. apply NoDup_cons in Hnd as [Hx Hnd].
  cbn [List.find]. unfold hasId at 1. destruct Hin as [->|Hin].
  - rewrite Z.eqb_refl. reflexivity.
  - destruct (id x =? id r) eqn:E; [|apply IH; assumption].
    apply Z.eqb_eq in E. exfalso. apply Hx. rewrite E.
    apply list_elem_of_In, List.in_map, Hin.
Qed.

Lemma leavesAlone_refl (i : Z) (st : State) : leavesAlone i st st.
Proof.
  repeat split; try reflexivity.
  - exists []. rewrite List.app_nil_r. reflexivity.
  - exists []. rewrite List.app_nil_r. split; [reflexivity|constructor].
Qed.

Lemma leavesAlone_trans (i : Z) (a b c : State) :
  leavesAlone i a b -> leavesAlone i b c -> leavesAlone i a c.
Proof.
  intros (J1 & A1 & R1 & S1 & C1 & (e1 & E1) & (t1 & T1 & F1))
         (J2 & A2 & R2 & S2 & C2 & (e2 & E2) & (t2 & T2 & F2)).
  repeat split; try congruence.
  - exists (e1 ++ e2). rewrite E2, E1, List.app_assoc. reflexivity.
  - exists (t1 ++ t2). split; [rewrite T2, T1, List.app_assoc; reflexivity|].
    apply Forall_app. auto.
Qed.

Lemma startRecording_alone (i : Z) (job : DvrJob) (st : State) :
  i <> id job ->
  getJob i (dvr_jobs (startRecording job st)) = getJob i (dvr_jobs st)
  /\ runningFFmpegProcesses (startRecording job st) !! i = runningFFmpegProcesses st !! i
  /\ exists more, effects (startRecording job st) = effects st ++ more.
Proof.
  intros Hne. unfold startRecording.
  destruct (resolve (settings st) (channels st) job) as [msg|ch p ua].
  - cbn [dvr_jobs runningFFmpegProcesses effects withJobs].
    rewrite getJob_updateWhere_other by (auto || reflexivity).
    repeat split. exists []. rewrite List.app_nil_r. reflexivity.
  - cbn [dvr_jobs runningFFmpegProcesses effects withJobs withRunning withProcs emit withOs].
    rewrite getJob_updateWhere_other by (auto || reflexivity).
    rewrite lookup_insert_ne by congruence.
    repeat split. eexists. reflexivity.
Qed.

Lemma scheduleDvrJob_alone (now : Z) (job : DvrJob) (st : State) (i : Z) :
  i <> id job -> activeDvrJobs st !! id job = None ->
  leavesAlone i st (scheduleDvrJob now job st).
Proof.
  intros Hne Hidle. unfold scheduleDvrJob. rewrite (cancelActive_idle _ _ Hidle).
  destruct (endTime job <=? now).
  - destruct (statusEqb (status job) scheduled); [|apply leavesAlone_refl].
    repeat split; cbn [dvr_jobs withJobs]; try reflexivity.
    + apply getJob_updateWhere_other; [exact Hne|reflexivity].
    + exists []. rewrite List.app_nil_r. reflexivity.
    + exists []. rewrite List.app_nil_r. split; [reflexivity|constructor].
  - destruct (startTime job >? now).
    + repeat split; cbn [activeDvrJobs timers withTimers withActive]; try reflexivity.
      * rewrite lookup_insert_ne by congruence. reflexivity.
      * exists []. rewrite List.app_nil_r. reflexivity.
      * eexists. split; [rewrite <- List.app_assoc; reflexivity|].
        repeat constructor; cbn [action timerJobId]; congruence.
    + destruct (startRecording_rest job st) as (Ht & Ha & Hs & Hc & _).
      destruct (startRecording_alone i job st Hne) as (Hj & Hr & He).
      repeat split; cbn [dvr_jobs activeDvrJobs timers runningFFmpegProcesses settings
                           channels effects withTimers]; try congruence; try assumption.
      eexists. split; [rewrite Ht; reflexivity|].
      repeat constructor; cbn [action timerJobId]; congruence.
Qed.

Lemma fold_schedule_alone (now : Z) (jobs : list DvrJob) (st : State) (i : Z) :
  NoDup (List.map id jobs) ->
  (forall k, In k jobs -> id k <> i) ->
  (forall k, In k jobs -> activeDvrJobs st !! id k = None) ->
  leavesAlone i st (List.fold_left (fun acc job => scheduleDvrJob now job acc) jobs st).
Proof.
  revert st. induction jobs as [|j jobs IH]; intros st Hnd Hne Hidle;
    [apply leavesAlone_refl|].
  cbn [List.map] in Hnd. apply NoDup_cons in Hnd as [Hj Hnd].
  cbn [List.fold_left].
  apply (leavesAlone_trans i st (scheduleDvrJob now j st)).
  - apply scheduleDvrJob_alone; [|apply Hidle; left; reflexivity].
    intros E. apply (Hne j); [left; reflexivity|congruence].
  - apply IH; [exact Hnd| |].
    + intros k Hk. apply Hne. right. exact Hk.
    + intros k Hk.
      assert (Hkj : id k <> id j).
      { intros E. apply Hj. rewrite <- E. apply list_elem_of_In, List.in_map, Hk. }
      destruct (scheduleDvrJob_alone now j st (id k) Hkj) as (_ & -> & _).
      * apply Hidle. left. reflexivity.
      * apply Hidle. right. exact Hk.
Qed.

Lemma NoDup_map_filter {A B : Type} (f : A -> B) (p : A -> bool) (l : list A) :
  NoDup (List.map f l) -> NoDup (List.map f (List.filter p l)).
Proof.
  induction l as [|x l IH]; intros Hnd; [constructor|].
  cbn [List.map] in Hnd. apply NoDup_cons in Hnd as [Hx Hnd].
  cbn [List.filter]. destruct (p x); [|apply IH, Hnd].
  cbn [List.map]. apply NoDup_cons. split; [|apply IH, Hnd].
  intros Hin. apply Hx. apply list_elem_of_In in Hin. apply list_elem_of_In.
  apply List.in_map_iff in Hin as (y & Hy & Hin). apply List.filter_In in Hin as [Hin _].
  apply List.in_map_iff. eauto.
Qed.

Lemma NoDup_ids_same (rows : list DvrJob) (a b : DvrJob) :
  NoDup (List.map id rows) -> In a rows -> In b rows -> id a = id b -> a = b.
Proof.
  intros Hnd Ha Hb E. pose proof (getJob_In_NoDup rows a Hnd Ha) as Hga.
  pose proof (getJob_In_NoDup rows b Hnd Hb) as Hgb. congruence.
Qed.

Lemma recovered_In (rows : list DvrJob) (j : DvrJob) :
  In j rows ->
  In (if statusEqb (status j) recording then setError restartMessage j else j)
    (recovered rows).
Proof.
  intros Hin. unfold recovered, updateWhere.
  apply List.in_map_iff. exists j. auto.
Qed.

(** The states around the arming of one scheduled job [j] during startup:
    before it nothing of [j] has been touched, after it everything of [j]
    is left alone. *)
Lemma startup_around (now : Z) (s : Settings) (chs : list Channel) (db : Database)
    (firstPid : Z) (j : DvrJob) :
  NoDup (List.map id (db_jobs db)) -> In j (db_jobs db) -> status j = scheduled ->
  exists st_a,
    getJob (id j) (dvr_jobs st_a) = Some j
    /\ activeDvrJobs st_a !! id j = None
    /\ settings st_a = s /\ channels st_a = chs
    /\ Forall (fun tm => timerJobId (action tm) <> id j) (timers st_a)
    /\ leavesAlone (id j) (scheduleDvrJob now j st_a) (startup now s chs db firstPid).
Proof.
  intros Hnd Hin Hs. unfold startup, loadJobs.
  set (st1 := withJobs _ (boot s chs db firstPid)).
  assert (Hrows : dvr_jobs st1 = recovered (db_jobs db)) by reflexivity.
  rewrite Hrows.
  assert (Hnd1 : NoDup (List.map id (recovered (db_jobs db)))).
  { unfold recovered. rewrite ids_updateWhere by reflexivity. exact Hnd. }
  assert (Hin1 : In j (recovered (db_jobs db))).
  { pose proof (recovered_In _ j Hin) as H. rewrite Hs in H. exact H. }
  set (js := List.filter (fun j0 => statusEqb (status j0) scheduled) (recovered (db_jobs db))).
  assert (Hjs : In j js).
  { apply List.filter_In. split; [exact Hin1|]. rewrite Hs. reflexivity. }
  assert (Hndjs : NoDup (List.map id js)) by apply NoDup_map_filter, Hnd1.
  destruct (List.in_split j js Hjs) as (l1 & l2 & Hsplit).
  rewrite Hsplit in Hndjs |- *.
  rewrite List.fold_left_app. cbn [List.fold_left].
  set (f := fun acc job => scheduleDvrJob now job acc).
  assert (Hidle : forall k, activeDvrJobs st1 !! id k = None).
  { intros k. cbn. apply lookup_empty. }
  rewrite List.map_app in Hndjs. cbn [List.map] in Hndjs.
  apply NoDup_app in Hndjs as (Hnd_l1 & Hcross & Hnd_r).
  apply NoDup_cons in Hnd_r as [Hj2 Hnd_l2].
  assert (Hl1 : forall k, In k l1 -> id k <> id j).
  { intros k Hk E. apply (Hcross (id k)).
    - apply list_elem_of_In, List.in_map, Hk.
    - rewrite E. left. }
  assert (Hl2 : forall k, In k l2 -> id k <> id j).
  { intros k Hk E. apply Hj2. rewrite <- E. apply list_elem_of_In, List.in_map, Hk. }
  assert (Ha : leavesAlone (id j) st1 (List.fold_left f l1 st1)).
  { apply fold_schedule_alone; auto. }
  exists (List.fold_left f l1 st1).
  destruct Ha as (Ja & Aa & _ & Sa & Ca & _ & (ta & Ta & Fa)).
  split; [|split; [|split; [|split; [|split]]]].
  - rewrite Ja, Hrows. apply getJob_In_NoDup; assumption.
  - rewrite Aa. apply Hidle.
  - rewrite Sa. reflexivity.
  - rewrite Ca. reflexivity.
  - rewrite Ta. exact Fa.
  - apply fold_schedule_alone; [exact Hnd_l2|exact Hl2|].
    intros k Hk.
    assert (Hkj : id k <> id j) by (apply Hl2, Hk).
    destruct (scheduleDvrJob_alone now j (List.fold_left f l1 st1) (id k) Hkj)
      as (_ & -> & _); [rewrite Aa; apply Hidle|].
    assert (Hk1 : leavesAlone (id k) st1 (List.fold_left f l1 st1)).
    { apply fold_schedule_alone; [exact Hnd_l1| |auto].
      intros x Hx E. apply (Hcross (id x)).
      - apply list_elem_of_In, List.in_map, Hx.
      - rewrite E. right. apply list_elem_of_In, List.in_map, Hk. }
    destruct Hk1 as (_ & -> & _). apply Hidle.
Qed.

Lemma startup_interrupted (now : Z) (s : Settings) (chs : list Channel) (db : Database)
    (firstPid : Z) (j : DvrJob) :
  NoDup (List.map id (db_jobs db)) -> In j (db_jobs db) -> status j = recording ->
  getJob (id j) (dvr_jobs (startup now s chs db firstPid))
  = Some (setError restartMessage j).
Proof.
  intros Hnd Hin Hs. unfold startup, loadJobs.
  set (st1 := withJobs _ (boot s chs db firstPid)).
  assert (Hrows : dvr_jobs st1 = recovered (db_jobs db)) by reflexivity.
  rewrite Hrows.
  assert (Hnd1 : NoDup (List.map id (recovered (db_jobs db)))).
  { unfold recovered. rewrite ids_updateWhere by reflexivity. exact Hnd. }
  assert (Hin1 : In (setError restartMessage j) (recovered (db_jobs db))).
  { pose proof (recovered_In _ j Hin) as H. rewrite Hs in H. exact H. }
  set (js := List.filter (fun j0 => statusEqb (status j0) scheduled) (recovered (db_jobs db))).
  assert (Ha : leavesAlone (id j) st1
                 (List.fold_left (fun acc job => scheduleDvrJob now job acc) js st1)).
  { apply fold_schedule_alone.
    - apply NoDup_map_filter, Hnd1.
    - intros k Hk E. apply List.filter_In in Hk as [Hk Hsk].
      assert (k = setError restartMessage j)
        by (apply (NoDup_ids_same _ _ _ Hnd1 Hk Hin1); exact E).
      subst k. discriminate.
    - intros k _. cbn. apply lookup_empty. }
  destruct Ha as (-> & _). rewrite Hrows.
  apply (getJob_In_NoDup _ _ Hnd1 Hin1).
Qed.



(** The sample restart, evaluated: statuses of the four jobs, and the
    timers armed (a stop timer for the job started on the spot, a start
    and a stop timer for the job still ahead). *)
Example restart_evaluated :
  List.map status (dvr_jobs restarted) = [error; error; recording; scheduled]
  /\ List.map (fun tm => (fireAt tm, timerJobId (action tm), timerState tm)) (timers restarted)
     = [(utc 2024 1 1 21 15 0, 3, Pending);
        (utc 2024 1 1 22 0 0, 4, Pending);
        (utc 2024 1 1 23 0 0, 4, Pending)]
  /\ List.map errorMessage (dvr_jobs restarted)
     = [Some "Server restarted during recording.";
        Some "Job was scheduled for a time in the past."; None; None].
Proof. vm_compute. repeat split; reflexivity. Qed.

End DvrRecovery.

(* ------------------------------------------------------------------ *)
(** ** DVR: the lifecycle of a job *)

Section DvrLifecycle.
Import Dvr.

Lemma row_update (i : Z) (cond : DvrJob -> bool) (f : DvrJob -> DvrJob)
    (rows : list DvrJob) (r : DvrJob) :
  (forall x, id (f x) = id x) ->
  getJob i rows = Some r ->
  getJob i (updateWhere cond f rows) = Some (if cond r then f r else r).
Proof. intros Hf Hr. rewrite getJob_updateWhere by exact Hf. rewrite Hr. reflexivity. Qed.

Lemma row_update_hasId (i k : Z) (f : DvrJob -> DvrJob) (rows : list DvrJob) (r : DvrJob) :
  (forall x, id (f x) = id x) ->
  getJob i rows = Some r ->
  getJob i (updateWhere (hasId k) f rows) = Some (if decide (k = i) then f r else r).
Proof.
  intros Hf Hr. rewrite (row_update i _ f rows r Hf Hr).
  destruct (getJob_id _ _ _ Hr) as [Hid _]. unfold hasId. rewrite Hid.
  destruct (decide (k = i)) as [->|Hne].
  - rewrite Z.eqb_refl. reflexivity.
  - assert (E : (i =? k) = false) by (apply Z.eqb_neq; congruence). rewrite E. reflexivity.
Qed.

(** [startRecording] changes no row but those of its job, which become
    [error] or [recording]. *)
Lemma startRecording_row (job : DvrJob) (st : State) (i : Z) (r : DvrJob) :
  getJob i (dvr_jobs st) = Some r ->
  exists r', getJob i (dvr_jobs (startRecording job st)) = Some r'
             /\ (r' = r \/ (id job = i /\ (status r' = error \/ status r' = recording))).
Proof.
  intros Hr. unfold startRecording.
  destruct (resolve (settings st) (channels st) job) as [msg|ch p ua];
    cbn [dvr_jobs withJobs withRunning withProcs emit withOs];
    rewrite (row_update_hasId i (id job) _ _ r) by (reflexivity || exact Hr);
    destruct (decide (id job = i)); eauto 8.
Qed.

Lemma scheduleDvrJob_row (now : Z) (job : DvrJob) (st : State) (i : Z) (r : DvrJob) :
  getJob i (dvr_jobs st) = Some r ->
  exists r', getJob i (dvr_jobs (scheduleDvrJob now job st)) = Some r'
             /\ (r' = r \/ (id job = i /\ (status r' = error \/ status r' = recording))).
Proof.
  intros Hr. unfold scheduleDvrJob.
  destruct (endTime job <=? now).
  - destruct (statusEqb (status job) scheduled).
    + cbn [dvr_jobs withJobs]. rewrite cancelActive_jobs.
      rewrite (row_update_hasId i (id job) _ _ r) by (reflexivity || exact Hr).
      destruct (decide (id job = i)); eauto 8.
    + rewrite cancelActive_jobs. eauto.
  - destruct (startTime job >? now).
    + cbn [dvr_jobs withTimers withActive]. rewrite cancelActive_jobs. eauto.
    + cbn [dvr_jobs withTimers]. apply startRecording_row.
      rewrite cancelActive_jobs. exact Hr.
Qed.

Lemma getJob_app_l (i : Z) (rows more : list DvrJob) (r : DvrJob) :
  getJob i rows = Some r -> getJob i (rows ++ more) = Some r.
Proof.
  unfold getJob. induction rows as [|x rows IH]; [discriminate|].
  cbn [List.find app]. destruct (hasId i x); [trivial|exact IH].
Qed.

Lemma getJob_filter_other (i k : Z) (rows : list DvrJob) (r' : DvrJob) :
  getJob i (List.filter (fun j => negb (hasId k j)) rows) = Some r' ->
  getJob i rows = Some r'.
Proof.
  unfold getJob. induction rows as [|x rows IH]; [discriminate|].
  cbn [List.filter List.find]. destruct (hasId k x) eqn:Ek; cbn [negb].
  - intros H. pose proof (IH H) as Hr.
    destruct (hasId i x) eqn:Ei; [|exact Hr].
    unfold hasId in Ek, Ei. apply Z.eqb_eq in Ek, Ei.
    apply List.find_some in H as [Hin Hid].
    apply List.filter_In in Hin as [_ Hk].
    unfold hasId in Hid, Hk. apply Z.eqb_eq in Hid. apply negb_true_iff, Z.eqb_neq in Hk.
    congruence.
  - cbn [List.find]. destruct (hasId i x); [trivial|exact IH].
Qed.

Lemma mayTouch_id (sess : Session) (k : Z) (j : DvrJob) :
  mayTouch sess k j = true -> id j = k.
Proof.
  unfold mayTouch, hasId. destruct (isAdmin sess).
  - apply Z.eqb_eq.
  - intros H. apply andb_true_iff in H as [H _]. apply Z.eqb_eq, H.
Qed.

Lemma lifecycle_started (r r' : DvrJob) :
  status r = scheduled ->
  r' = r \/ (status r' = error \/ status r' = recording) ->
  lifecycle (status r) (status r').
Proof.
  intros Hs [->|[H|H]]; [constructor| |]; rewrite Hs, H; constructor.
Qed.

(** C7, as the code has it.  Over a database with unique ids, an event
    that meets a job in the status its handler is written for (a cancel a
    scheduled job, a stop and the events of the recording process a
    recording job, the start timer a scheduled job; no expectation for any
    other event) moves the job's status along
    scheduled -> recording -> completed | error, scheduled -> cancelled,
    recording -> completed, or directly scheduled -> error when the job
    cannot be started (its window is over, or its channel, profile or user
    agent does not resolve).  In particular rescheduling, the scheduling
    and the timers of other jobs, and the deletion of history rows never
    change the status of a completed, failed or cancelled job. *)
Ltac unchanged :=
  match goal with
  | Hr' : _ = Some ?r' |- lifecycle (status ?r) (status ?r') =>
      assert (r' = r)
        by (congruence
            || (cbn [fst dvr_jobs withJobs withSeq withRecordings withTimers withActive
                       withRunning withProcs withOs emit withEnv setProc] in Hr';
                congruence));
      subst; constructor
  end.

Theorem C7_lifecycle_by_design (now : Z) (ev : Event) (st : State) (i : Z) (r r' : DvrJob) :
  dbOk st ->
  getJob i (dvr_jobs st) = Some r ->
  getJob i (dvr_jobs (step now ev st)) = Some r' ->
  inOrder ev st i r ->
  lifecycle (status r) (status r')
  /\ (isTerminal (status r) = true -> status r' = status r).
Proof.
  intros [Hnd Hseq] Hr Hr' Hord.
  destruct (getJob_id _ _ _ Hr) as [Hid Hin].
  assert (Hlc : lifecycle (status r) (status r')).
  { destruct ev as [sess body|sess k|sess k|sess k a b|sess k|t|p data|p|p code stat|p m|s chs];
      cbn [step inOrder] in *.
    - (* POST /api/dvr/schedule *)
      destruct (postSchedule_cases now sess body st) as [[_ E]|[_ E]];
        rewrite E in Hr'; cbn [fst] in Hr'.
      + unchanged.
      + set (job := setId (dvr_seq st + 1) (newJobOf sess body (settings st))) in *.
        set (st1 := withSeq _ _) in *.
        assert (Hr1 : getJob i (dvr_jobs st1) = Some r) by (apply getJob_app_l, Hr).
        destruct (scheduleDvrJob_row now job st1 i r Hr1) as (x & Hx & [->|[Hown _]]).
        * unchanged.
        * exfalso. rewrite Forall_forall in Hseq. apply list_elem_of_In in Hin.
          specialize (Hseq r Hin). cbn in Hown. lia.
    - (* DELETE /api/dvr/jobs/:id *)
      unfold deleteJob in Hr'.
      destruct (changes _ _ =? 0)%nat; cbn [fst dvr_jobs withJobs] in Hr';
        rewrite cancelActive_jobs in Hr'.
      + unchanged.
      + rewrite (row_update i _ _ _ r) in Hr' by (reflexivity || exact Hr).
        destruct (mayTouch sess k r) eqn:E.
        * apply mayTouch_id in E. injection Hr' as <-.
          rewrite Hord by congruence. constructor.
        * unchanged.
    - (* POST /api/dvr/jobs/:id/stop *)
      unfold postStop in Hr'. destruct (stopRecording_rest k st) as (_ & _ & Hj & _).
      destruct (changes _ _ =? 0)%nat; cbn [fst dvr_jobs withJobs] in Hr';
        rewrite Hj in Hr'.
      + unchanged.
      + rewrite (row_update i _ _ _ r) in Hr' by (reflexivity || exact Hr).
        destruct (mayTouch sess k r) eqn:E.
        * apply mayTouch_id in E. injection Hr' as <-.
          rewrite Hord by congruence. constructor.
        * unchanged.
    - (* PUT /api/dvr/jobs/:id *)
      unfold putJob in Hr'.
      destruct a as [a|], b as [b|];
        try (unchanged).
      destruct (List.find (mayTouch sess k) (dvr_jobs st)) as [job|] eqn:Ef;
        [|unchanged].
      destruct (statusEqb (status job) scheduled) eqn:Es; cbn [negb fst] in Hr';
        [|unchanged].
      apply statusEqb_eq in Es. apply List.find_some in Ef as [Hjin Hj].
      apply mayTouch_id in Hj.
      set (st1 := withJobs _ st) in *.
      assert (Hr1 : getJob i (dvr_jobs st1)
                    = Some (if decide (k = i) then setWindow a b r else r)).
      { apply row_update_hasId; [reflexivity|exact Hr]. }
      destruct (scheduleDvrJob_row now (setWindow a b job) st1 i _ Hr1)
        as (x & Hx & Hcase).
      assert (x = r') by congruence. subst x.
      destruct (decide (k = i)) as [->|Hne].
      + assert (r = job) by (apply (NoDup_ids_same _ _ _ Hnd Hin Hjin); congruence).
        subst job. destruct Hcase as [->|[_ [H|H]]].
        * constructor.
        * rewrite Es, H. constructor.
        * rewrite Es, H. constructor.
      + destruct Hcase as [->|[Hown _]]; [constructor|].
        cbn in Hown. congruence.
    - (* DELETE /api/dvr/jobs/:id/history *)
      unfold deleteHistory in Hr'.
      destruct (List.find _ _) as [job|]; [|unchanged].
      destruct (isTerminal (status job)); cbn [fst dvr_jobs withJobs] in Hr';
        [|unchanged].
      apply getJob_filter_other in Hr'.
      unchanged.
    - (* a timer fires *)
      unfold fireTimer in Hr'.
      destruct (timers st !! t) as [tm|] eqn:Et;
        [|unchanged].
      destruct (timerState tm); try (unchanged).
      destruct (fireAt tm <=? now); [|unchanged].
      destruct (action tm) as [job|k] eqn:Ea.
      + set (st1 := withTimers _ st) in *.
        destruct (startRecording_row job st1 i r Hr) as (x & Hx & Hcase).
        assert (x = r') by congruence. subst x.
        destruct Hcase as [->|[Hown Hst]]; [constructor|].
        apply lifecycle_started; [|right; exact Hst].
        apply (Hord tm job); auto.
      + set (st1 := withTimers _ st) in *.
        destruct (stopRecording_rest k st1) as (_ & _ & Hj & _). rewrite Hj in Hr'.
        subst st1. unchanged.
    - (* stderr *)
      unfold onStderr in Hr'. destruct (procs st !! p) as [rp|];
        [destruct (closed rp)|]; unchanged.
    - (* the process is reaped *)
      unfold osExit in Hr'. destruct (procs st !! p) as [rp|];
        unchanged.
    - (* close *)
      unfold onClose in Hr'. destruct (procs st !! p) as [rp|] eqn:Ep;
        [|unchanged].
      destruct (closed rp); [unchanged|].
      specialize (Hord rp eq_refl).
      assert (Hcase : r' = r \/ (id (rp_job rp) = i
                                 /\ (status r' = completed \/ status r' = error))).
      { destruct stat as [m|size].
        - cbn [dvr_jobs withJobs] in Hr'.
          rewrite (row_update_hasId i _ _ _ r) in Hr' by (reflexivity || exact Hr).
          destruct (decide (id (rp_job rp) = i)); injection Hr' as <-; auto.
        - destruct (finishedGracefully _ _ && _).
          + cbn [dvr_jobs withJobs] in Hr'.
            rewrite (row_update_hasId i _ _ _ r) in Hr' by (reflexivity || exact Hr).
            destruct (decide (id (rp_job rp) = i)); injection Hr' as <-; auto.
          + destruct (size <=? 1024); cbn [dvr_jobs withJobs emit] in Hr';
              rewrite (row_update_hasId i _ _ _ r) in Hr' by (reflexivity || exact Hr);
              destruct (decide (id (rp_job rp) = i)); injection Hr' as <-; auto. }
      destruct Hcase as [->|[Hown [H|H]]]; [constructor| |];
        rewrite (Hord Hown), H; constructor.
    - (* error *)
      unfold onError in Hr'. destruct (procs st !! p) as [rp|] eqn:Ep;
        [|unchanged].
      specialize (Hord rp eq_refl).
      cbn [dvr_jobs withJobs withRunning] in Hr'.
      rewrite (row_update_hasId i _ _ _ r) in Hr' by (reflexivity || exact Hr).
      destruct (decide (id (rp_job rp) = i)) as [Hown|]; injection Hr' as <-;
        [|constructor].
      rewrite (Hord Hown). constructor.
    - (* settings or channel directory change *)
      unchanged. }
  split; [exact Hlc|].
  intros Hterm. destruct Hlc; try reflexivity; discriminate.
Qed.

Lemma afterNews_dbOk : dbOk afterNews.
Proof.
  split.
  - apply (bool_decide_unpack _). vm_compute. exact I.
  - repeat constructor. vm_compute. discriminate.
Qed.

Lemma C7_lifecycle_by_design_witness :
  lifecycle (status newsJob) (status (setStatus cancelled newsJob))
  /\ (isTerminal (status newsJob) = true
      -> status (setStatus cancelled newsJob) = status newsJob).
Proof.
  refine (C7_lifecycle_by_design (utc 2024 1 1 19 30 0) (DeleteJob viewer 1) afterNews 1
            newsJob (setStatus cancelled newsJob) _ _ _ _).
  - split.
    + apply (bool_decide_unpack _). vm_compute. exact I.
    + repeat constructor. vm_compute. discriminate.
  - vm_compute. reflexivity.
  - vm_compute. reflexivity.
  - intros _. reflexivity.
Defined.

(** The claimed lifecycle has no step from [scheduled] to [error], yet the
    start timer of a scheduled job whose channel has left the directory
    makes exactly that step. *)
Lemma C7_counterexample :
  dbOk channelGone
  /\ getJob 1 (dvr_jobs channelGone) = Some newsJob
  /\ status newsJob = scheduled
  /\ getJob 1 (dvr_jobs (step (utc 2024 1 1 19 59 0) (TimerFires 0) channelGone))
     = Some (setErrorNoPid "Channel ID ch1 not found in M3U." newsJob)
  /\ status (setErrorNoPid "Channel ID ch1 not found in M3U." newsJob) = error
  /\ ~ lifecycleAsClaimed scheduled error.
Proof.
  split; [exact afterNews_dbOk|].
  split; [vm_compute; reflexivity|]. split; [reflexivity|].
  split; [vm_compute; reflexivity|]. split; [reflexivity|].
  intros H. inversion H.
Qed.

(** Outside the expected order the handlers do overwrite a final status:
    [stop] turns a cancelled job into [completed], and [cancel] turns a
    completed job into [cancelled]. *)
Example final_status_overwritten :
  let cancelledNews := fst (deleteJob viewer 1 afterNews) in
  List.map status (dvr_jobs cancelledNews) = [cancelled]
  /\ List.map status (dvr_jobs (fst (postStop viewer 1 cancelledNews))) = [completed]
  /\ List.map status
       (dvr_jobs (fst (deleteJob viewer 1 (fst (postStop viewer 1 cancelledNews)))))
     = [cancelled].
Proof. vm_compute. repeat split; reflexivity. Qed.

End DvrLifecycle.

(* ------------------------------------------------------------------ *)
(** ** The session table *)

Section TableFacts.
Context {V : Type}.

Lemma get_delete_eq (k : string) (m : JsMap.t (V := V)) :
  JsMap.get k (JsMap.delete k m) = None.
Proof.
  induction m as [|[k' v] m IH]; [reflexivity|].
  unfold JsMap.delete in *. cbn [List.filter fst].
  destruct (String.eqb k' k) eqn:E; cbn [negb]; [exact IH|].
  cbn [JsMap.get]. rewrite E. exact IH.
Qed.

Lemma get_delete_ne (k k' : string) (m : JsMap.t (V := V)) :
  k <> k' -> JsMap.get k (JsMap.delete k' m) = JsMap.get k m.
Proof.
  intros Hne. induction m as [|[k0 v] m IH]; [reflexivity|].
  unfold JsMap.delete in *. cbn [List.filter fst JsMap.get].
  destruct (String.eqb k0 k') eqn:E; cbn [negb].
  - apply String.eqb_eq in E. subst k0.
    assert (E' : String.eqb k' k = false) by (apply String.eqb_neq; congruence).
    rewrite E'. exact IH.
  - cbn [JsMap.get]. destruct (String.eqb k0 k); [reflexivity|exact IH].
Qed.

Lemma get_set_eq (k : string) (v : V) (m : JsMap.t (V := V)) :
  JsMap.get k (JsMap.set k v m) = Some v.
Proof.
  induction m as [|[k' v'] m IH]; cbn [JsMap.set JsMap.get].
  - rewrite String.eqb_refl. reflexivity.
  - destruct (String.eqb k' k) eqn:E; cbn [JsMap.get].
    + rewrite String.eqb_refl. reflexivity.
    + rewrite E. exact IH.
Qed.

Lemma get_In (k : string) (v : V) (m : JsMap.t (V := V)) :
  JsMap.get k m = Some v -> In (k, v) m.
Proof.
  induction m as [|[k' v'] m IH]; [discriminate|].
  cbn [JsMap.get]. destruct (String.eqb k' k) eqn:E.
  - apply String.eqb_eq in E. intros [= ->]. left. congruence.
  - intros H. right. apply IH, H.
Qed.

Lemma In_get (k : string) (v : V) (m : JsMap.t (V := V)) :
  NoDup (JsMap.keys m) -> In (k, v) m -> JsMap.get k m = Some v.
Proof.
  induction m as [|[k' v'] m IH]; intros Hnd Hin; [contradiction|].
  unfold JsMap.keys in Hnd. cbn [List.map fst] in Hnd.
  apply NoDup_cons in Hnd as [Hk Hnd]. cbn [JsMap.get].
  destruct Hin as [[= -> ->]|Hin].
  - rewrite String.eqb_refl. reflexivity.
  - destruct (String.eqb k' k) eqn:E; [|apply IH; assumption].
    apply String.eqb_eq in E. subst k'. exfalso. apply Hk.
    apply list_elem_of_In. change k with (fst (k, v)). apply List.in_map, Hin.
Qed.

Lemma keys_delete_NoDup (k : string) (m : JsMap.t (V := V)) :
  NoDup (JsMap.keys m) -> NoDup (JsMap.keys (JsMap.delete k m)).
Proof. unfold JsMap.keys, JsMap.delete. apply NoDup_map_filter. Qed.

Lemma keys_set (k : string) (v : V) (m : JsMap.t (V := V)) :
  JsMap.keys (JsMap.set k v m)
  = if JsMap.has k m then JsMap.keys m else JsMap.keys m ++ [k].
Proof.
  unfold JsMap.keys, JsMap.has. induction m as [|[k' v'] m IH]; [reflexivity|].
  cbn [JsMap.set JsMap.get]. destruct (String.eqb k' k) eqn:E.
  - apply String.eqb_eq in E. subst. reflexivity.
  - cbn [List.map fst]. rewrite IH. destruct (JsMap.get k m); reflexivity.
Qed.

Lemma get_None_keys (k : string) (m : JsMap.t (V := V)) :
  JsMap.get k m = None -> ~ In k (JsMap.keys m).
Proof.
  induction m as [|[k' v'] m IH]; [intros _ []|].
  cbn [JsMap.get]. destruct (String.eqb k' k) eqn:E; [discriminate|].
  intros H [Hk|Hin]; [|exact (IH H Hin)].
  cbn in Hk. apply String.eqb_neq in E. congruence.
Qed.

(** A [Map] holds one value per key. *)
Lemma keys_set_NoDup (k : string) (v : V) (m : JsMap.t (V := V)) :
  NoDup (JsMap.keys m) -> NoDup (JsMap.keys (JsMap.set k v m)).
Proof.
  intros Hnd. rewrite keys_set. unfold JsMap.has.
  destruct (JsMap.get k m) eqn:E; [exact Hnd|].
  apply NoDup_app. split; [exact Hnd|]. split; [|apply NoDup_singleton].
  intros x Hx Hk. apply list_elem_of_In in Hx. apply list_elem_of_In in Hk.
  destruct Hk as [<-|[]]. exact (get_None_keys _ _ E Hx).
Qed.

End TableFacts.

(* ------------------------------------------------------------------ *)
(** ** Streams: the janitor *)

Section StreamJanitor.
Import Stream.

Lemma finalizeHistory_rest (now : Z) (info : StreamInfo) (st : State) :
  activeStreamProcesses (finalizeHistory now info st) = activeStreamProcesses st
  /\ heap (finalizeHistory now info st) = heap st
  /\ procs (finalizeHistory now info st) = procs st
  /\ conns (finalizeHistory now info st) = conns st.
Proof. unfold finalizeHistory. destruct (historyId info =? 0); repeat split; reflexivity. Qed.

Lemma kill_rest (p : nat) (st : State) :
  activeStreamProcesses (fst (kill p st)) = activeStreamProcesses st
  /\ heap (fst (kill p st)) = heap st
  /\ stream_history (fst (kill p st)) = stream_history st
  /\ conns (fst (kill p st)) = conns st.
Proof.
  unfold kill. destruct (procs st !! p) as [pr|]; [|repeat split; reflexivity].
  destruct (killThrows pr); repeat split; reflexivity.
Qed.

Lemma kill_procs (p : nat) (st : State) (pr : Proc) :
  procs st !! p = Some pr ->
  kill p st
  = if killThrows pr then (st, true)
    else (withProcs (fun ps => <[p := mkProc (pid pr) (args pr) (p_streamKey pr)
                                         false (S (sigkills pr)) (pipedTo pr)]> ps) st,
          false).
Proof. intros Hp. unfold kill. rewrite Hp. reflexivity. Qed.

Lemma kill_other (p q : nat) (st : State) :
  p <> q -> procs (fst (kill p st)) !! q = procs st !! q.
Proof.
  intros Hne. unfold kill. destruct (procs st !! p) as [pr|]; [|reflexivity].
  destruct (killThrows pr); [reflexivity|].
  cbn [fst procs withProcs]. apply list_lookup_insert_ne, Hne.
Qed.

Lemma kill_grows (p : nat) (st : State) : procsGrow st (fst (kill p st)).
Proof.
  intros q pr Hq. destruct (decide (p = q)) as [->|Hne].
  - rewrite (kill_procs q st pr Hq). destruct (killThrows pr) eqn:E.
    + exists pr. auto.
    + eexists. split; [apply list_lookup_insert_eq; eapply lookup_lt_Some, Hq|].
      cbn [sigkills killThrows]. split; [lia|congruence].
  - exists pr. rewrite kill_other by exact Hne. auto.
Qed.

Lemma procsGrow_refl (st : State) : procsGrow st st.
Proof. intros p pr Hp. exists pr. auto. Qed.

Lemma procsGrow_trans (a b c : State) : procsGrow a b -> procsGrow b c -> procsGrow a c.
Proof.
  intros Hab Hbc p pr Hp. destruct (Hab p pr Hp) as (pr1 & H1 & L1 & K1).
  destruct (Hbc p pr1 H1) as (pr2 & H2 & L2 & K2).
  exists pr2. split; [exact H2|]. split; [lia|congruence].
Qed.

(** One visit of the sweep: a stale entry loses its key whether or not the
    kill throws, anything else is left as it is. *)
Lemma sweepEntry_table (now : Z) (st : State) (key : string) (a : nat) :
  activeStreamProcesses (sweepEntry now st (key, a))
  = (if staleAt now (heap st) a
     then JsMap.delete key (activeStreamProcesses st)
     else activeStreamProcesses st)
  /\ heap (sweepEntry now st (key, a)) = heap st
  /\ conns (sweepEntry now st (key, a)) = conns st.
Proof.
  unfold sweepEntry, staleAt. destruct (heap st !! a) as [info|]; [|auto].
  destruct (isStale now info); [|auto].
  destruct (finalizeHistory_rest now info st) as (Ht & Hh & _ & Hc).
  destruct (kill_rest (process info) (finalizeHistory now info st)) as (Kt & Kh & _ & Kc).
  destruct (kill (process info) (finalizeHistory now info st)) as [st' []];
    cbn [fst] in *; cbn [activeStreamProcesses heap conns broadcastAdminUpdate withTable];
    rewrite Kt, Kh, Kc, Ht, Hh, Hc; auto.
Qed.

Lemma sweepEntry_grows (now : Z) (st : State) (e : string * nat) :
  procsGrow st (sweepEntry now st e).
Proof.
  destruct e as [key a]. unfold sweepEntry.
  destruct (heap st !! a) as [info|]; [|apply procsGrow_refl].
  destruct (isStale now info); [|apply procsGrow_refl].
  destruct (finalizeHistory_rest now info st) as (_ & _ & Hp & _).
  pose proof (kill_grows (process info) (finalizeHistory now info st)) as Hg.
  assert (Hg' : procsGrow st (fst (kill (process info) (finalizeHistory now info st)))).
  { intros p pr Hq. apply Hg. rewrite Hp. exact Hq. }
  destruct (kill (process info) (finalizeHistory now info st)) as [st' []];
    cbn [fst] in Hg'; intros p pr Hq; destruct (Hg' p pr Hq) as (pr' & ? & ? & ?);
    exists pr'; auto.
Qed.

Lemma sweepEntry_kills (now : Z) (st : State) (key : string) (a : nat)
    (info : StreamInfo) (pr : Proc) :
  heap st !! a = Some info -> isStale now info = true ->
  procs st !! process info = Some pr -> killThrows pr = false ->
  exists pr', procs (sweepEntry now st (key, a)) !! process info = Some pr'
              /\ sigkills pr' = S (sigkills pr).
Proof.
  intros Ha Hs Hp Hk. unfold sweepEntry. rewrite Ha, Hs.
  destruct (finalizeHistory_rest now info st) as (_ & _ & Hps & _).
  rewrite (kill_procs (process info) (finalizeHistory now info st) pr) by (rewrite Hps; exact Hp).
  rewrite Hk. cbn [procs broadcastAdminUpdate withTable withProcs]. rewrite Hps.
  eexists. split; [apply list_lookup_insert_eq; eapply lookup_lt_Some, Hp|reflexivity].
Qed.

Lemma sweepEntry_spares (now : Z) (st : State) (key : string) (a p : nat) :
  (forall info, heap st !! a = Some info -> isStale now info = true -> process info <> p) ->
  procs (sweepEntry now st (key, a)) !! p = procs st !! p.
Proof.
  intros Hne. unfold sweepEntry. destruct (heap st !! a) as [info|]; [|reflexivity].
  destruct (isStale now info) eqn:Hs; [|reflexivity].
  specialize (Hne info eq_refl Hs).
  destruct (finalizeHistory_rest now info st) as (_ & _ & Hps & _).
  pose proof (kill_other (process info) p (finalizeHistory now info st) Hne) as Hk.
  destruct (kill (process info) (finalizeHistory now info st)) as [st' []];
    cbn [fst] in Hk; cbn [procs broadcastAdminUpdate withTable]; rewrite Hk, Hps; reflexivity.
Qed.

Lemma sweep_table (now : Z) (l : list (string * nat)) (st : State) :
  activeStreamProcesses (List.fold_left (sweepEntry now) l st)
  = List.fold_left
      (fun m e => if staleAt now (heap st) (snd e) then JsMap.delete (fst e) m else m)
      l (activeStreamProcesses st)
  /\ heap (List.fold_left (sweepEntry now) l st) = heap st
  /\ conns (List.fold_left (sweepEntry now) l st) = conns st.
Proof.
  revert st. induction l as [|[key a] l IH]; intros st; [auto|].
  cbn [List.fold_left fst snd].
  destruct (sweepEntry_table now st key a) as (Ht & Hh & Hc).
  destruct (IH (sweepEntry now st (key, a))) as (It & Ih & Ic).
  rewrite It, Ih, Ic, Ht, Hh, Hc. auto.
Qed.

Lemma get_after_deletes (now : Z) (h : list StreamInfo) (key : string)
    (l : list (string * nat)) (m : JsMap.t (V := nat)) :
  JsMap.get key
    (List.fold_left
       (fun m e => if staleAt now h (snd e) then JsMap.delete (fst e) m else m) l m)
  = if List.existsb (fun e => String.eqb (fst e) key && staleAt now h (snd e)) l
    then None else JsMap.get key m.
Proof.
  revert m. induction l as [|[k a] l IH]; intros m; [reflexivity|].
  cbn [List.fold_left List.existsb fst snd]. rewrite IH.
  destruct (staleAt now h a) eqn:Es; [|rewrite andb_false_r; reflexivity].
  destruct (String.eqb k key) eqn:Ek; cbn [andb orb].
  - apply String.eqb_eq in Ek. subst k. rewrite get_delete_eq.
    destruct (List.existsb _ l); reflexivity.
  - rewrite get_delete_ne; [reflexivity|]. apply String.eqb_neq in Ek. congruence.
Qed.

Lemma existsb_at_key (now : Z) (h : list StreamInfo) (key : string)
    (m : JsMap.t (V := nat)) :
  NoDup (JsMap.keys m) ->
  List.existsb (fun e => String.eqb (fst e) key && staleAt now h (snd e)) m
  = match JsMap.get key m with
    | Some a => staleAt now h a
    | None => false
    end.
Proof.
  induction m as [|[k a] m IH]; intros Hnd; [reflexivity|].
  unfold JsMap.keys in Hnd. cbn [List.map fst] in Hnd.
  apply NoDup_cons in Hnd as [Hk Hnd].
  cbn [List.existsb JsMap.get fst snd]. rewrite (IH Hnd).
  destruct (String.eqb k key) eqn:Ek; cbn [andb]; [|reflexivity].
  apply String.eqb_eq in Ek. subst k.
  destruct (JsMap.get key m) as [b|] eqn:Eg; [|apply orb_false_r].
  exfalso. apply Hk. apply list_elem_of_In.
  change key with (fst (key, b)). apply List.in_map, get_In, Eg.
Qed.

(** What a sweep leaves in the table. *)
Lemma sweep_lookup (now : Z) (st : State) (key : string) :
  NoDup (JsMap.keys (activeStreamProcesses st)) ->
  lookup key (cleanupInactiveStreams now st)
  = match lookup key st with
    | Some info => if isStale now info then None else Some info
    | None => None
    end.
Proof.
  intros Hnd. unfold lookup, cleanupInactiveStreams.
  destruct (sweep_table now (activeStreamProcesses st) st) as (-> & -> & _).
  rewrite get_after_deletes, (existsb_at_key now _ key _ Hnd).
  destruct (JsMap.get key (activeStreamProcesses st)) as [a|]; [|reflexivity].
  unfold staleAt. destruct (heap st !! a) as [info|] eqn:Eh;
    [destruct (isStale now info)|]; cbn iota; rewrite ?Eh; reflexivity.
Qed.

Lemma sweep_grows (now : Z) (l : list (string * nat)) (st : State) :
  procsGrow st (List.fold_left (sweepEntry now) l st).
Proof.
  revert st. induction l as [|e l IH]; intros st; [apply procsGrow_refl|].
  cbn [List.fold_left].
  eapply procsGrow_trans; [apply sweepEntry_grows|apply IH].
Qed.

Lemma sweep_spares (now : Z) (l : list (string * nat)) (st : State) (p : nat) :
  (forall key a info, In (key, a) l -> heap st !! a = Some info ->
     isStale now info = true -> process info <> p) ->
  procs (List.fold_left (sweepEntry now) l st) !! p = procs st !! p.
Proof.
  revert st. induction l as [|[key a] l IH]; intros st Hne; [reflexivity|].
  cbn [List.fold_left].
  destruct (sweepEntry_table now st key a) as (_ & Hh & _).
  rewrite IH.
  - apply sweepEntry_spares. intros info. apply (Hne key a info). left. reflexivity.
  - intros k b info Hin. rewrite Hh. apply (Hne k b info). right. exact Hin.
Qed.

Lemma sweep_kills (now : Z) (st : State) (key : string) (info : StreamInfo) (pr : Proc) :
  lookup key st = Some info -> isStale now info = true ->
  procs st !! process info = Some pr -> killThrows pr = false ->
  exists pr', procs (cleanupInactiveStreams now st) !! process info = Some pr'
              /\ (sigkills pr < sigkills pr')%nat.
Proof.
  intros Hl Hs Hp Hk. unfold lookup in Hl.
  destruct (JsMap.get key (activeStreamProcesses st)) as [a|] eqn:Eg; [|discriminate].
  apply get_In in Eg. destruct (List.in_split _ _ Eg) as (l1 & l2 & Hsplit).
  unfold cleanupInactiveStreams. rewrite Hsplit, List.fold_left_app.
  cbn [List.fold_left].
  set (st_a := List.fold_left (sweepEntry now) l1 st).
  destruct (sweep_table now l1 st) as (_ & Hh & _). fold st_a in Hh.
  destruct (sweep_grows now l1 st _ _ Hp) as (pr1 & Hp1 & Hle1 & Hk1). fold st_a in Hp1.
  destruct (sweepEntry_kills now st_a key a info pr1) as (pr2 & Hp2 & Hs2);
    [rewrite Hh; exact Hl|exact Hs|exact Hp1|congruence|].
  destruct (sweep_grows now l2 (sweepEntry now st_a (key, a)) _ _ Hp2)
    as (pr3 & Hp3 & Hle3 & _).
  exists pr3. split; [exact Hp3|lia].
Qed.

Lemma isStale_iff (now : Z) (info : StreamInfo) :
  isStale now info = true
  <-> references info <= 0 /\ now - lastAccess info > STREAM_INACTIVITY_TIMEOUT.
Proof. unfold isStale. rewrite andb_true_iff, Z.leb_le, Z.gtb_gt. reflexivity. Qed.

(** The janitor ticks every [JANITOR_PERIOD]; whenever a session went idle
    at [t0] after the ticking began, a tick falls later than the timeout
    after [t0] and no later than the timeout plus one period. *)
Lemma tick_in_window (first t0 : Z) :
  first <= t0 + STREAM_INACTIVITY_TIMEOUT ->
  exists n : Z,
    0 <= n
    /\ t0 + STREAM_INACTIVITY_TIMEOUT < first + JANITOR_PERIOD * n
    /\ first + JANITOR_PERIOD * n <= t0 + STREAM_INACTIVITY_TIMEOUT + JANITOR_PERIOD.
Proof.
  unfold STREAM_INACTIVITY_TIMEOUT, JANITOR_PERIOD. intros Hfirst.
  exists ((t0 + 30000 - first) / 60000 + 1).
  pose proof (Z.div_mod (t0 + 30000 - first) 60000 ltac:(lia)) as Hdm.
  pose proof (Z.mod_pos_bound (t0 + 30000 - first) 60000 ltac:(lia)) as Hb.
  assert (0 <= (t0 + 30000 - first) / 60000) by (apply Z.div_pos; lia).
  lia.
Qed.

Lemma startStream_table (now : Z) (req : Request) (key : string) (conn : nat) (st : State) :
  activeStreamProcesses (fst (startStream now req key conn st)) = activeStreamProcesses st.
Proof.
  unfold startStream. destruct (truthy (url req)) as [u|]; [|reflexivity].
  destruct (match findProfile _ _ with Some p => Some p | None => _ end) as [profile|];
    [|reflexivity].
  destruct (String.eqb (command profile) "redirect"); [reflexivity|].
  destruct (findUserAgent _ _) as [ua|]; [|reflexivity].
  destruct (describe req u st) as [[name chId] logo]. reflexivity.
Qed.

Lemma getStream_table (now : Z) (req : Request) (st : State) :
  activeStreamProcesses (fst (getStream now req st)) = activeStreamProcesses st.
Proof.
  unfold getStream.
  destruct (JsMap.get _ (activeStreamProcesses st)) as [a|]; [|apply startStream_table].
  destruct (heap st !! a) as [info|]; [|apply startStream_table].
  unfold pipe. destruct (procs _ !! process info); reflexivity.
Qed.

Lemma sweep_NoDup (now : Z) (l : list (string * nat)) (st : State) :
  NoDup (JsMap.keys (activeStreamProcesses st)) ->
  NoDup (JsMap.keys (activeStreamProcesses (List.fold_left (sweepEntry now) l st))).
Proof.
  revert st. induction l as [|[key a] l IH]; intros st Hnd; [exact Hnd|].
  cbn [List.fold_left]. apply IH.
  destruct (sweepEntry_table now st key a) as (-> & _).
  destruct (staleAt now (heap st) a); [apply keys_delete_NoDup|]; exact Hnd.
Qed.

(** The table never holds two sessions under one key. *)
Lemma step_NoDup (now : Z) (ev : Event) (st : State) :
  NoDup (JsMap.keys (activeStreamProcesses st)) ->
  NoDup (JsMap.keys (activeStreamProcesses (step now ev st))).
Proof.
  intros Hnd. destruct ev as [req|i err|c|p|p|u streamUrl pf| |p b|s chs]; cbn [step].
  - rewrite getStream_table. exact Hnd.
  - unfold onInsertDone. destruct (inserts st !! i) as [ins|]; [|exact Hnd].
    destruct (ins_done ins); [exact Hnd|]. destruct err; [exact Hnd|].
    cbn [activeStreamProcesses broadcastAdminUpdate withTable withHeap withHistory withInserts].
    apply keys_set_NoDup, Hnd.
  - unfold onReqClose. destruct (conns st !! c) as [conn|]; [|exact Hnd].
    destruct (requestOpen conn); [|exact Hnd].
    unfold release, closeConn.
    destruct (attachment conn) as [a| |]; cbn [activeStreamProcesses withConns heap].
    + destruct (heap st !! a); exact Hnd.
    + destruct (JsMap.get _ _) as [a|]; [|exact Hnd].
      cbn [heap withConns]. destruct (heap st !! a); exact Hnd.
    + exact Hnd.
  - unfold cleanupOnExit. destruct (procs st !! p) as [pr|]; [|exact Hnd].
    cbn [activeStreamProcesses broadcastAdminUpdate withTable].
    apply keys_delete_NoDup.
    destruct (lookup _ st) as [info|]; [|exact Hnd].
    destruct (finalizeHistory_rest now info st) as (-> & _). exact Hnd.
  - unfold cleanupOnExit. destruct (procs st !! p) as [pr|]; [|exact Hnd].
    cbn [activeStreamProcesses broadcastAdminUpdate withTable].
    apply keys_delete_NoDup.
    destruct (lookup _ st) as [info|]; [|exact Hnd].
    destruct (finalizeHistory_rest now info st) as (-> & _). exact Hnd.
  - unfold postStop. destruct (truthy streamUrl) as [x|]; [|exact Hnd].
    destruct (lookup _ st) as [info|]; [|exact Hnd].
    destruct (references info >? 1); [exact Hnd|]. cbn [fst].
    destruct (finalizeHistory_rest now info st) as (Ht & _).
    destruct (kill_rest (process info) (finalizeHistory now info st)) as (Kt & _).
    destruct (kill (process info) (finalizeHistory now info st)) as [st' []];
      cbn [fst] in Kt.
    + rewrite Kt, Ht. exact Hnd.
    + cbn [activeStreamProcesses broadcastAdminUpdate withTable].
      apply keys_delete_NoDup. rewrite Kt, Ht. exact Hnd.
  - apply sweep_NoDup, Hnd.
  - unfold setKillThrows. destruct (procs st !! p); exact Hnd.
  - exact Hnd.
Qed.

Lemma run_NoDup (evs : list (Z * Event)) (st : State) :
  NoDup (JsMap.keys (activeStreamProcesses st)) ->
  NoDup (JsMap.keys (activeStreamProcesses (run evs st))).
Proof.
  revert st. induction evs as [|[now ev] evs IH]; intros st Hnd; [exact Hnd|].
  cbn [run]. apply IH, step_NoDup, Hnd.
Qed.

Lemma reachable_NoDup (s : Settings) (chs : list Channel) (firstPid : Z)
    (evs : list (Z * Event)) :
  NoDup (JsMap.keys (activeStreamProcesses (run evs (boot s chs firstPid)))).
Proof. apply run_NoDup. constructor. Qed.

(** C6. In any state the server can reach, a sweep keeps a session unless
    its reference count is at most 0 and its last access lies more than the
    30 s timeout before now, and removes it in that case, also when the
    kill throws; the child of a removed session whose handle does not throw
    has received a [SIGKILL], other children have received none.  Hence a
    session idle since [t0] survives every sweep up to [t0] + 30 s, and
    with sweeps every 60 s one of them falls in ([t0] + 30 s, [t0] + 90 s]
    and removes the session if it is still idle. *)
Theorem C6_janitor_sweep (s : Settings) (chs : list Channel) (firstPid : Z)
    (evs : list (Z * Event)) (now : Z) :
  let st := run evs (boot s chs firstPid) in
  let st' := cleanupInactiveStreams now st in
  (forall key,
     lookup key st'
     = match lookup key st with
       | Some info => if isStale now info then None else Some info
       | None => None
       end)
  /\ (forall info, isStale now info = true
                   <-> references info <= 0
                       /\ now - lastAccess info > STREAM_INACTIVITY_TIMEOUT)
  /\ (forall key info pr,
        lookup key st = Some info -> isStale now info = true ->
        procs st !! process info = Some pr ->
        lookup key st' = None
        /\ (killThrows pr = false ->
            exists pr', procs st' !! process info = Some pr'
                        /\ (sigkills pr < sigkills pr')%nat))
  /\ (forall p,
        (forall key info, lookup key st = Some info -> isStale now info = true ->
                          process info <> p) ->
        procs st' !! p = procs st !! p)
  /\ (forall key info,
        lookup key st = Some info ->
        now - lastAccess info <= STREAM_INACTIVITY_TIMEOUT ->
        lookup key st' = Some info)
  /\ (forall first key info,
        lookup key st = Some info -> references info <= 0 ->
        first <= lastAccess info + STREAM_INACTIVITY_TIMEOUT ->
        exists n, 0 <= n
          /\ lastAccess info + STREAM_INACTIVITY_TIMEOUT < first + JANITOR_PERIOD * n
          /\ first + JANITOR_PERIOD * n
             <= lastAccess info + STREAM_INACTIVITY_TIMEOUT + JANITOR_PERIOD
          /\ lookup key (cleanupInactiveStreams (first + JANITOR_PERIOD * n) st) = None).
Proof.
  intros st st'.
  assert (Hnd : NoDup (JsMap.keys (activeStreamProcesses st))) by apply reachable_NoDup.
  assert (Hlook := fun now key => sweep_lookup now st key Hnd).
  split; [intros key; apply Hlook|]. split; [apply isStale_iff|].
  split; [|split; [|split]].
  - intros key info pr Hl Hs Hp. split.
    + subst st'. rewrite Hlook, Hl, Hs. reflexivity.
    + intros Hk. apply (sweep_kills now st key info pr); assumption.
  - intros p Hne. apply sweep_spares. intros key a info Hin Ha Hs.
    apply (Hne key info); [|exact Hs].
    unfold lookup. rewrite (In_get key a _ Hnd Hin). exact Ha.
  - intros key info Hl Hfresh. subst st'. rewrite Hlook, Hl.
    assert (E : isStale now info = false).
    { apply not_true_is_false. intros H. apply isStale_iff in H. lia. }
    rewrite E. reflexivity.
  - intros first key info Hl Hrefs Hfirst.
    destruct (tick_in_window first (lastAccess info) Hfirst) as (n & Hn & Hlo & Hhi).
    exists n. repeat split; try assumption.
    rewrite Hlook, Hl.
    assert (E : isStale (first + JANITOR_PERIOD * n) info = true)
      by (apply isStale_iff; lia).
    rewrite E. reflexivity.
Qed.

Lemma C6_janitor_sweep_witness :
  lookup keyOne (cleanupInactiveStreams 50000 (run abandoned freshStreams))
  = lookup keyOne (run abandoned freshStreams)
  /\ lookup keyOne (cleanupInactiveStreams 50001 (run abandoned freshStreams)) = None.
Proof.
  split.
  - destruct (lookup keyOne (run abandoned freshStreams)) as [info|] eqn:E.
    + refine (proj1 (proj2 (proj2 (proj2 (proj2
               (C6_janitor_sweep defaultSettings [channelOne] 4000 abandoned 50000)))))
               keyOne info E _).
      revert E. vm_compute. intros [= <-]. discriminate.
    + exfalso. revert E. vm_compute. discriminate.
  - destruct (lookup keyOne (run abandoned freshStreams)) as [info|] eqn:E.
    + destruct (procs (run abandoned freshStreams) !! process info) as [pr|] eqn:Ep.
      * refine (proj1 (proj1 (proj2 (proj2
                 (C6_janitor_sweep defaultSettings [channelOne] 4000 abandoned 50001)))
                 keyOne info pr E _ Ep)).
        revert E. vm_compute. intros [= <-]. reflexivity.
      * exfalso. revert E Ep. vm_compute. intros [= <-]. discriminate.
    + exfalso. revert E. vm_compute. discriminate.
Defined.

(** The abandoned session: kept by the sweep at 50 s, removed with its
    child killed by the sweep at 110 s; removed as well when the kill
    throws, the child then being left alone. *)
Example janitor_evaluated :
  let st := run abandoned freshStreams in
  JsMap.keys (activeStreamProcesses (cleanupInactiveStreams 50000 st)) = [keyOne]
  /\ JsMap.keys (activeStreamProcesses (cleanupInactiveStreams 110000 st)) = []
  /\ List.map sigkills (procs (cleanupInactiveStreams 110000 st)) = [1%nat]
  /\ (let broken := step 30000 (KillWillThrow 0 true) st in
      JsMap.keys (activeStreamProcesses (cleanupInactiveStreams 110000 broken)) = []
      /\ List.map sigkills (procs (cleanupInactiveStreams 110000 broken)) = [0%nat]).
Proof. vm_compute. repeat split; reflexivity. Qed.

End StreamJanitor.

(* ------------------------------------------------------------------ *)
(** ** Streams: explicit stop *)

Section StreamStop.
Import Stream.

Lemma finalizeHistory_row (now : Z) (info : StreamInfo) (st : State) (row : HistoryRow) :
  historyId info <> 0 -> In row (stream_history st) ->
  h_id row = historyId info -> h_status row = playing ->
  In (mkHistoryRow (h_id row) (h_user_id row) (h_username row) (h_channel_id row)
        (h_channel_name row) (h_start_time row) (Some now)
        (Some (roundSeconds (now - startTime info))) stopped
        (h_client_ip row) (h_channel_logo row) (h_stream_profile_name row))
     (stream_history (finalizeHistory now info st)).
Proof.
  intros Hh Hin Hid Hst. unfold finalizeHistory.
  apply Z.eqb_neq in Hh. rewrite Hh. cbn [stream_history withHistory].
  apply List.in_map_iff. exists row. split; [|exact Hin].
  unfold stopRow. rewrite Hst, Hid, Z.eqb_refl. reflexivity.
Qed.




(** Stop with two viewers attached, then with one. *)
Example stop_with_two_then_one :
  let st := run sharing freshStreams in
  references <$> lookup keyOne st = Some 2
  /\ postStop 5000 7 (Some urlOne) (Some "ffmpeg-default") st
     = (st, Json true "Stream kept alive for other active clients.")
  /\ (let st1 := step 6000 (ReqClose 1) st in
      references <$> lookup keyOne st1 = Some 1
      /\ lookup keyOne (fst (postStop 7000 7 (Some urlOne) (Some "ffmpeg-default") st1))
         = None
      /\ List.map sigkills
           (procs (fst (postStop 7000 7 (Some urlOne) (Some "ffmpeg-default") st1)))
         = [1%nat]).
Proof. vm_compute. repeat split; reflexivity. Qed.

End StreamStop.

(* ------------------------------------------------------------------ *)
(** ** Streams: attaching *)

Section StreamAttach.
Import Stream.

(** A request for a key that is in the table spawns nothing: it adds a
    reference to the session object and taps the existing child. *)
Lemma attach_existing (now : Z) (req : Request) (st : State) (a : nat) (info : StreamInfo) :
  JsMap.get (streamKeyOf (userId req) (url req) (profileId req)) (activeStreamProcesses st)
  = Some a ->
  heap st !! a = Some info ->
  let result := getStream now req st in
  snd result = Piped (process info) EmptyString
  /\ List.length (procs (fst result)) = List.length (procs st)
  /\ heap (fst result) !! a = Some (setReferences (references info + 1) now info)
  /\ activeStreamProcesses (fst result) = activeStreamProcesses st.
Proof.
  intros Hg Ha result. subst result. unfold getStream. rewrite Hg, Ha.
  cbn [fst snd]. split; [reflexivity|]. unfold pipe.
  cbn [procs withHeap].
  destruct (procs st !! process info) as [pr|];
    cbn [procs heap activeStreamProcesses withConns withProcs withHeap].
  - rewrite length_insert. repeat split.
    apply list_lookup_insert_eq. eapply lookup_lt_Some, Ha.
  - repeat split. apply list_lookup_insert_eq. eapply lookup_lt_Some, Ha.
Qed.

(** C1 at the failing input.  Two requests with the same key arrive before
    the history insert of the first has called back: each finds the table
    empty and spawns a child.  When both callbacks have run, the table
    holds one session for the key, with one reference, owning the second
    child; two requests are attached and the first child is tracked by
    nothing.  When the second request arrives after the first callback,
    one child serves both and the session has two references. *)
Theorem C1_concurrent_attach_spawns_twice :
  spawnedFor keyOne (run racing freshStreams) = 2%nat
  /\ undetached keyOne (run racing freshStreams) = 2%nat
  /\ JsMap.keys (activeStreamProcesses (run racing freshStreams)) = [keyOne]
  /\ references <$> lookup keyOne (run racing freshStreams) = Some 1
  /\ process <$> lookup keyOne (run racing freshStreams) = Some 1%nat
  /\ List.map pid (procs (run racing freshStreams)) = [4000; 4001]
  /\ spawnedFor keyOne (run sharing freshStreams) = 1%nat
  /\ undetached keyOne (run sharing freshStreams) = 2%nat
  /\ references <$> lookup keyOne (run sharing freshStreams) = Some 2.
Proof. vm_compute. repeat split; reflexivity. Qed.

End StreamAttach.
